(** * PfmImageLoader: a shallow embedding of tev's PFM decoder

    Source: [src/imageio/PfmImageLoader.cpp] ([PfmImageLoader::canLoadFile]
    and [PfmImageLoader::load]).

    Conventions of the embedding (LP64 platform):
    - [int] is a 32-bit two's complement integer, [Eigen::DenseIndex] and
      [std::streamsize] are 64-bit signed, [size_t] is 64-bit unsigned; all of
      them are values of [Z] with the conversions written out.
    - [float] is IEEE-754 binary32.  Arithmetic values are [spec_float] at
      precision 24 (no NaN payloads); floats that come from raw memory are
      kept as their four bytes of object representation until they are used
      as numbers.
    - [std::istream] is a record holding the bytes of the stream, the read
      position, the three error bits and the count of the last unformatted
      read; every operation takes a stream and returns the new one.
      Formatted extraction is that of C++11 in the classic locale: a field
      that does not convert stores 0, a value out of range stores the
      nearest limit, and both set [failbit].
    - [throw] is a result constructor; reading outside a vector is the
      outcome [Undefined]. *)

From Stdlib Require Import ZArith Lia List Ascii String Bool.
From Stdlib Require Import Floats.SpecFloat.
From stdpp Require Import base option list gmap strings sorting.

Local Open Scope Z_scope.

(* ===================================================================== *)
(** ** Machine integers *)
(* ===================================================================== *)

Module MachineInt.

Definition wrap_signed (bits : Z) (z : Z) : Z :=
  (z + 2 ^ (bits - 1)) mod 2 ^ bits - 2 ^ (bits - 1).

Definition to_int (z : Z) : Z := wrap_signed 32 z.
Definition to_DenseIndex (z : Z) : Z := wrap_signed 64 z.
Definition to_streamsize (z : Z) : Z := wrap_signed 64 z.
Definition to_size_t (z : Z) : Z := z mod 2 ^ 64.

Definition INT_MAX : Z := 2 ^ 31 - 1.
Definition INT_MIN : Z := - 2 ^ 31.

(** [sizeof(float)] *)
Definition sizeof_float : Z := 4.

(** [std::vector<float>::max_size()]: [PTRDIFF_MAX / sizeof(float)]. *)
Definition vector_float_max_size : Z := (2 ^ 63 - 1) / sizeof_float.

End MachineInt.
Export MachineInt.

(* ===================================================================== *)
(** ** binary32 floats *)
(* ===================================================================== *)

Module Float32.

Definition float : Type := spec_float.

Definition prec : Z := 24.
Definition emax : Z := 128.

Definition zero : float := S754_zero false.

(** [std::isfinite] *)
Definition isfinite (f : float) : bool :=
  match f with
  | S754_zero _ | S754_finite _ _ _ => true
  | S754_infinity _ | S754_nan => false
  end.

Definition eqb (a b : float) : bool := SFeqb a b.
Definition ltb (a b : float) : bool := SFltb a b.
Definition abs (a : float) : float := SFabs a.
Definition mul (a b : float) : float := SFmul prec emax a b.

(** [std::numeric_limits<float>::max()] *)
Definition max_float : float := SFmax_float prec emax.

(** The value denoted by a 32-bit pattern: 1 sign bit, 8 exponent bits,
    23 fraction bits. *)
Definition of_bits (w : Z) : float :=
  let s := Z.testbit w 31 in
  let e := Z.land (Z.shiftr w 23) 255 in
  let m := Z.land w (2 ^ 23 - 1) in
  if e =? 0 then
    match m with
    | Zpos p => S754_finite s p (-149)
    | _ => S754_zero s
    end
  else if e =? 255 then
    (if m =? 0 then S754_infinity s else S754_nan)
  else
    match m + 2 ^ 23 with
    | Zpos p => S754_finite s p (e - 150)
    | _ => S754_nan
    end.

(** Object representation: the four bytes of a float in memory order. *)
Definition rep : Type := (ascii * ascii * ascii * ascii)%type.

Definition byteZ (b : ascii) : Z := Z.of_N (N_of_ascii b).

(** The number a host of the given byte order sees in four bytes of
    memory. *)
Definition value (hostLittleEndian : bool) (r : rep) : float :=
  let '(b0, b1, b2, b3) := r in
  if hostLittleEndian
  then of_bits (Z.lor (byteZ b0) (Z.lor (Z.shiftl (byteZ b1) 8)
               (Z.lor (Z.shiftl (byteZ b2) 16) (Z.shiftl (byteZ b3) 24))))
  else of_bits (Z.lor (byteZ b3) (Z.lor (Z.shiftl (byteZ b2) 8)
               (Z.lor (Z.shiftl (byteZ b1) 16) (Z.shiftl (byteZ b0) 24)))).

(** The correctly rounded (to nearest, ties to even) binary32 value of
    [(-1)^s * n / d] for positive [n] and [d]: what [strtof] returns
    for a decimal literal, before any range handling by its caller. *)
Definition of_ratio (s : bool) (n d : positive) : float :=
  let '(q, e, l) := SFdiv_core_binary prec emax (Zpos n) 0 (Zpos d) 0 in
  binary_round_aux prec emax s q e l.

(** [strtof] of the decimal literal with digits [m] and decimal exponent
    [e10]: the value [(-1)^s * m * 10^e10]. *)
Definition of_decimal (s : bool) (m : Z) (e10 : Z) : float :=
  match m with
  | Zpos p =>
      if 0 <=? e10
      then of_ratio s (p * Z.to_pos (10 ^ e10)) 1
      else of_ratio s p (Z.to_pos (10 ^ (- e10)))
  | _ => S754_zero s
  end.

End Float32.

(* ===================================================================== *)
(** ** std::istream *)
(* ===================================================================== *)

Module IStream.

Record istream : Type := Build_istream {
  content : list ascii;   (* the bytes behind the stream buffer *)
  pos     : nat;          (* the get position *)
  eofbit  : bool;
  failbit : bool;
  badbit  : bool;
  gcount  : nat;          (* characters taken by the last unformatted read *)
}.

(** A stream as it is opened: at offset 0, no error bits. *)
Definition open (bytes : list ascii) : istream :=
  Build_istream bytes 0 false false false 0.

Definition good (s : istream) : bool :=
  negb (eofbit s || failbit s || badbit s).

(** [fail()]; the conversion to [bool] is [!fail()]. *)
Definition fail (s : istream) : bool := failbit s || badbit s.

Definition set_failbit (s : istream) : istream :=
  Build_istream (content s) (pos s) (eofbit s) true (badbit s) (gcount s).

Definition set_eofbit (s : istream) : istream :=
  Build_istream (content s) (pos s) true (failbit s) (badbit s) (gcount s).

Definition set_gcount (n : nat) (s : istream) : istream :=
  Build_istream (content s) (pos s) (eofbit s) (failbit s) (badbit s) n.

Definition advance (n : nat) (s : istream) : istream :=
  Build_istream (content s) (pos s + n) (eofbit s) (failbit s) (badbit s)
                (gcount s).

(** The bytes not yet read. *)
Definition rest (s : istream) : list ascii := drop (pos s) (content s).

(** [clear()] *)
Definition clear (s : istream) : istream :=
  Build_istream (content s) (pos s) false false false (gcount s).

(** [seekg(p)]: clears [eofbit]; unless the stream has failed, moves the
    get position (an offset past the end makes the seek fail). [gcount]
    is not changed. *)
Definition seekg (p : nat) (s : istream) : istream :=
  let s := Build_istream (content s) (pos s) false (failbit s) (badbit s)
                         (gcount s) in
  if fail s then s
  else if (p <=? length (content s))%nat
       then Build_istream (content s) p (eofbit s) (failbit s) (badbit s)
                          (gcount s)
       else set_failbit s.

(** [read(buf, n)]: an unformatted read of [n] characters. On a stream
    that is not good nothing is read and [failbit] is set. Returns the
    characters stored into the buffer. *)
Definition read (n : Z) (s : istream) : list ascii * istream :=
  if good s then
    let got := take (Z.to_nat n) (rest s) in
    let s := set_gcount (length got) (advance (length got) s) in
    if Z.of_nat (length got) =? n then (got, s)
    else (got, set_failbit (set_eofbit s))
  else ([], set_gcount 0 (set_failbit s)).

(** [get(c)]: an unformatted read of one character. *)
Definition get (s : istream) : option ascii * istream :=
  if good s then
    match rest s with
    | c :: _ => (Some c, set_gcount 1 (advance 1 s))
    | [] => (None, set_gcount 0 (set_failbit (set_eofbit s)))
    end
  else (None, set_gcount 0 (set_failbit s)).

(** *** Formatted input *)

(** [isspace] in the classic locale. *)
Definition isspace (c : ascii) : bool :=
  let n := nat_of_ascii c in
  ((n =? 32) || ((9 <=? n) && (n <=? 13)))%nat.

Definition isdigit (c : ascii) : bool :=
  let n := nat_of_ascii c in ((48 <=? n) && (n <=? 57))%nat.

Definition digit_value (c : ascii) : Z := Z.of_nat (nat_of_ascii c) - 48.

Fixpoint span (p : ascii -> bool) (l : list ascii)
  : list ascii * list ascii :=
  match l with
  | c :: l' =>
      if p c then let '(a, b) := span p l' in (c :: a, b) else ([], l)
  | [] => ([], [])
  end.

(** The [sentry] of a formatted input function with [skipws] set. *)
Definition sentry (s : istream) : bool * istream :=
  if good s then
    let '(ws, after) := span isspace (rest s) in
    let s := advance (length ws) s in
    match after with
    | [] => (false, set_failbit (set_eofbit s))
    | _ :: _ => (true, s)
    end
  else (false, set_failbit s).

(** Consume [n] characters of a token that was followed by [after]:
    meeting the end of the stream sets [eofbit]. *)
Definition consumed (n : nat) (after : list ascii) (s : istream) : istream :=
  let s := advance n s in
  match after with [] => set_eofbit s | _ :: _ => s end.

Definition string_of (l : list ascii) : string := string_of_list_ascii l.

(** [is >> str] for a [std::string]: [old] is the value the string held
    before; it stays when the sentry fails. *)
Definition extract_string (old : string) (s : istream) : string * istream :=
  let '(ok, s) := sentry s in
  if ok then
    let '(tok, after) := span (fun c => negb (isspace c)) (rest s) in
    let s := consumed (length tok) after s in
    match tok with
    | [] => (EmptyString, set_failbit s)
    | _ :: _ => (string_of tok, s)
    end
  else (old, s).

Definition is_sign (c : ascii) : bool :=
  (nat_of_ascii c =? 43)%nat || (nat_of_ascii c =? 45)%nat.

Definition is_minus (c : ascii) : bool := (nat_of_ascii c =? 45)%nat.

(** An optional sign in front of [l]. *)
Definition take_sign (l : list ascii) : list ascii * list ascii :=
  match l with
  | c :: l' => if is_sign c then ([c], l') else ([], l)
  | [] => ([], [])
  end.

Definition negative (sign : list ascii) : bool :=
  match sign with c :: _ => is_minus c | [] => false end.

Definition decimal (ds : list ascii) : Z :=
  fold_left (fun acc c => 10 * acc + digit_value c) ds 0.

(** [is >> i] for an [int]: an optional sign and decimal digits. Without
    a digit the value is 0 and [failbit] is set; a value outside [int]
    is clamped and [failbit] is set. [old] stays when the sentry fails. *)
Definition extract_int (old : Z) (s : istream) : Z * istream :=
  let '(ok, s) := sentry s in
  if ok then
    let '(sign, l1) := take_sign (rest s) in
    let '(ds, after) := span isdigit l1 in
    let s := consumed (length sign + length ds) after s in
    match ds with
    | [] => (0, set_failbit s)
    | _ :: _ =>
        let v := if negative sign then - decimal ds else decimal ds in
        if v <? INT_MIN then (INT_MIN, set_failbit s)
        else if INT_MAX <? v then (INT_MAX, set_failbit s)
        else (v, s)
    end
  else (old, s).

Definition is_point (c : ascii) : bool := (nat_of_ascii c =? 46)%nat.
Definition is_e (c : ascii) : bool :=
  (nat_of_ascii c =? 101)%nat || (nat_of_ascii c =? 69)%nat.

(** The part of a floating-point field after the sign: digits, at most
    one decimal point, and after at least one digit an exponent mark
    with its optional sign and digits. *)
Record float_field : Type := Build_float_field {
  ff_int : list ascii;
  ff_point : bool;
  ff_frac : list ascii;
  ff_e : bool;
  ff_esign : list ascii;
  ff_exp : list ascii;
}.

Definition scan_float (l : list ascii) : float_field * list ascii :=
  let '(int_ds, l) := span isdigit l in
  let '(point, frac_ds, l) :=
    match l with
    | c :: l' =>
        if is_point c then let '(f, l'') := span isdigit l' in (true, f, l'')
        else (false, [], l)
    | [] => (false, [], [])
    end in
  let mantissa := match int_ds ++ frac_ds with [] => false | _ => true end in
  match l with
  | c :: l' =>
      if is_e c && mantissa then
        let '(esign, l'') := take_sign l' in
        let '(exp_ds, l''') := span isdigit l'' in
        (Build_float_field int_ds point frac_ds true esign exp_ds, l''')
      else (Build_float_field int_ds point frac_ds false [] [], l)
  | [] => (Build_float_field int_ds point frac_ds false [] [], [])
  end.

Definition ff_length (f : float_field) : nat :=
  (length (ff_int f) + (if ff_point f then 1 else 0) + length (ff_frac f)
   + (if ff_e f then 1 else 0) + length (ff_esign f) + length (ff_exp f))%nat.

(** Whether [strtof] accepts the whole field. *)
Definition ff_valid (f : float_field) : bool :=
  match ff_int f ++ ff_frac f with
  | [] => false
  | _ :: _ =>
      if ff_e f then match ff_exp f with [] => false | _ => true end
      else true
  end.

Definition ff_value (sign : bool) (f : float_field) : Float32.float :=
  let e := if negative (ff_esign f) then - decimal (ff_exp f)
           else decimal (ff_exp f) in
  Float32.of_decimal sign (decimal (ff_int f ++ ff_frac f))
                     (e - Z.of_nat (length (ff_frac f))).

(** [is >> f] for a [float]. A field [strtof] does not accept gives 0 and
    [failbit]; a value too large for [float] gives the largest finite
    float of that sign and [failbit]. [old] stays when the sentry
    fails. *)
Definition extract_float (old : Float32.float) (s : istream)
  : Float32.float * istream :=
  let '(ok, s) := sentry s in
  if ok then
    let '(sign, l1) := take_sign (rest s) in
    let '(f, after) := scan_float l1 in
    let s := consumed (length sign + ff_length f) after s in
    if ff_valid f then
      match ff_value (negative sign) f with
      | S754_infinity sg =>
          ((if sg then SFopp Float32.max_float else Float32.max_float),
           set_failbit s)
      | v => (v, s)
      end
    else (Float32.zero, set_failbit s)
  else (old, s).

End IStream.

(* ===================================================================== *)
(** ** Channels and images *)
(* ===================================================================== *)

Module Image.

(** A [Channel]: a name, the size it was made with, and its grid of
    samples, addressed by coordinate. A coordinate never written reads as
    the zero the grid was filled with. *)
Record Channel : Type := Build_Channel {
  mName : string;
  mSize : Z * Z;
  mData : gmap (Z * Z) Float32.float;
}.

(** Reading [channel.at({x, y})]. *)
Definition at_ (ch : Channel) (p : Z * Z) : Float32.float :=
  default Float32.zero (mData ch !! p).

(** [channel.at({x, y}) = v]. *)
Definition set_at (p : Z * Z) (v : Float32.float) (ch : Channel) : Channel :=
  Build_Channel (mName ch) (mSize ch) (<[p := v]> (mData ch)).

Record ImageData : Type := Build_ImageData {
  channels : list Channel;
  layers : list string;
}.

Section Factory.

(** The default name of channel [i] among [count] channels. *)
Variable channelName : nat -> nat -> string.

(** Modelled from the spec: [makeNChannels] (declared in
    [tev/Image.h], defined elsewhere) "allocates [count]
    zero-initialized grids of the given size with deterministic
    default names". *)
Definition makeNChannels (numChannels : Z) (size : Z * Z) : list Channel :=
  map (fun i => Build_Channel (channelName (Z.to_nat numChannels) i) size ∅)
      (seq 0 (Z.to_nat numChannels)).

End Factory.

End Image.

(* ===================================================================== *)
(** ** The loader *)
(* ===================================================================== *)

Module PfmImageLoader.
Import IStream Image.

(** *** [canLoadFile] (lines 13-22) *)

Definition canLoadFile (iStream : istream) : bool * istream :=
  let '(b, iStream) := read 2 iStream in
  let result :=
    negb (fail iStream) && (gcount iStream =? 2)%nat &&
    match b with
    | b0 :: b1 :: _ =>
        Ascii.eqb b0 "P" && (Ascii.eqb b1 "F" || Ascii.eqb b1 "f")
    | _ => false
    end in
  let iStream := clear iStream in
  let iStream := seekg 0 iStream in
  (result, iStream).

(** *** Results of [load] *)

(** The four [throw invalid_argument{...}] of [load], each with the
    values its message is formatted from. *)
Inductive error : Type :=
| InvalidMagic (magic : string)              (* line 41 *)
| InvalidScale (scale : Float32.float)       (* line 45 *)
| ZeroPixels                                 (* line 55 *)
| NotSufficientBytes (read expected : Z).    (* line 69 *)

Inductive outcome (A : Type) : Type :=
| Ok (a : A)
| Throw (e : error)
| ThrowLengthError      (* [std::length_error] of the vector constructor *)
| Undefined.            (* an access outside a vector *)
Arguments Ok {A} a.
Arguments Throw {A} e.
Arguments ThrowLengthError {A}.
Arguments Undefined {A}.

(** The error taxonomy of the specification. *)
Definition InvalidFormat (e : error) : bool :=
  match e with
  | InvalidMagic _ | InvalidScale _ | ZeroPixels => true
  | NotSufficientBytes _ _ => false
  end.


(** Whether an outcome is an image handed to the caller. *)
Definition returns {A : Type} (o : outcome A) : bool :=
  match o with
  | Ok _ => true
  | _ => false
  end.

(** *** Pieces of [load] *)

(** The values of the locals [size] and [scale] before line 31: they are
    not initialised. *)
Record Uninitialised : Type := Build_Uninitialised {
  uninit_x : Z;
  uninit_y : Z;
  uninit_scale : Float32.float;
}.

(** Line 31: [iStream >> magic >> size.x() >> size.y() >> scale]. *)
Definition readHeader (u : Uninitialised) (iStream : istream)
  : string * (Z * Z) * Float32.float * istream :=
  let '(magic, iStream) := extract_string EmptyString iStream in
  let '(x, iStream) := extract_int (to_int (uninit_x u)) iStream in
  let '(y, iStream) := extract_int (to_int (uninit_y u)) iStream in
  let '(scale, iStream) := extract_float (uninit_scale u) iStream in
  (magic, (x, y), scale, iStream).

(** Lines 33-42. [None] is the [else] branch. *)
Definition numChannels_of_magic (magic : string) : option Z :=
  if String.eqb magic "Pf" then Some 1
  else if String.eqb magic "PF" then Some 3
  else if String.eqb magic "PF4" then Some 4
  else None.

(** Line 63: [while (iStream.get(c) && c != '\r' && c != '\n');] *)
Definition is_eol (c : ascii) : bool :=
  Ascii.eqb c "013" || Ascii.eqb c "010".

Fixpoint skipLoop (fuel : nat) (iStream : istream) : istream :=
  match fuel with
  | O => iStream
  | S fuel =>
      match get iStream with
      | (Some c, iStream) =>
          if negb (fail iStream) && negb (is_eol c)
          then skipLoop fuel iStream else iStream
      | (None, iStream) => iStream
      end
  end.

(** Each turn of the loop that goes on takes one byte, so one turn more
    than there are bytes left is enough. *)
Definition skipHeaderLine (iStream : istream) : istream :=
  skipLoop (S (length (rest iStream))) iStream.

(** The bytes read at line 67, seen as the elements of [data]. *)
Fixpoint floats_of_bytes (l : list ascii) : list Float32.rep :=
  match l with
  | b0 :: b1 :: b2 :: b3 :: l' => (b0, b1, b2, b3) :: floats_of_bytes l'
  | _ => []
  end.

(** Modelled from the spec: [swapBytes] (declared in [tev/Common.h],
    defined elsewhere) reverses the four bytes of a sample. *)
Definition swapBytes (r : Float32.rep) : Float32.rep :=
  let '(b0, b1, b2, b3) := r in (b3, b2, b1, b0).

(** [data[i]] for an [int] index: the index is converted to [size_t]. *)
Definition data_at (data : list Float32.rep) (i : Z) : option Float32.rep :=
  if i <? 0 then None else data !! Z.to_nat i.

(** A loop over the indices in [l] whose body may be undefined. *)
Fixpoint forM {S : Type} (l : list Z) (body : Z -> S -> option S) (s : S)
  : option S :=
  match l with
  | [] => Some s
  | i :: l' =>
      match body i s with
      | Some s' => forM l' body s'
      | None => None
      end
  end.

(** [channels[c].at(p) = v] *)
Definition writeSample (c : Z) (p : Z * Z) (v : Float32.float)
    (channels : list Channel) : option (list Channel) :=
  match channels !! Z.to_nat c with
  | Some ch => Some (<[Z.to_nat c := set_at p v ch]> channels)
  | None => None
  end.

(** The order in which a thread pool starts the bodies of
    [parallelFor(start, end, body)]: some arrangement of
    [start, ..., end-1]. *)
Definition schedule : Type := Z -> Z -> list Z.

Definition sequential : schedule := fun a b => seqZ a (b - a).

(** A schedule that starts every index of the range, each once. *)
Definition fair (sched : schedule) : Prop :=
  forall a b, sched a b ≡ₚ seqZ a (b - a).

Definition parallelFor {S : Type} (sched : schedule) (a b : Z)
    (body : Z -> S -> option S) (s : S) : option S :=
  forM (sched a b) body s.

Section Load.

(** [isSystemLittleEndian()] *)
Variable isSystemLittleEndian : bool.
(** [matchesFuzzy(name, selector, &matchId)]: [Some matchId] when it
    returns true. *)
Variable matchesFuzzy : string -> string -> option nat.
Variable channelName : nat -> nat -> string.
Variable uninit : Uninitialised.

Section Decode.

Variable data : list Float32.rep.
Variable shallSwapBytes : bool.
Variable scale : Float32.float.
Variable size : Z * Z.
Variable numChannels : Z.

(** Lines 79-88, the body of the loop over [c]. *)
Definition decodeSample (y x baseIdx c : Z) (channels : list Channel)
  : option (list Channel) :=
  match data_at data (to_int (baseIdx + c)) with
  | Some val =>
      let val := if shallSwapBytes then swapBytes val else val in
      writeSample c (x, to_int (size.2 - y - 1))
        (Float32.mul scale (Float32.value isSystemLittleEndian val))
        channels
  | None => None
  end.

(** Lines 77-89, the body of the loop over [x]. The index is computed
    in 64 bits and then kept in an [int]: the low 32 bits of the exact
    product. *)
Definition decodePixel (y x : Z) (channels : list Channel)
  : option (list Channel) :=
  let baseIdx := to_int ((y * size.1 + x) * numChannels) in
  forM (seqZ 0 numChannels) (decodeSample y x baseIdx) channels.

(** Lines 76-90, the body given to [parallelFor]. *)
Definition decodeRow (y : Z) (channels : list Channel)
  : option (list Channel) :=
  forM (seqZ 0 size.1) (decodePixel y) channels.

(** Lines 75-91. *)
Definition decode (sched : schedule) (channels : list Channel)
  : option (list Channel) :=
  parallelFor sched 0 size.2 decodeRow channels.

End Decode.

(** Lines 93-99: the pairs [(matchId, i)] of the channels that match. *)
Fixpoint collectMatches (channelSelector : string) (i : nat)
    (channels : list Channel) : list (nat * nat) :=
  match channels with
  | [] => []
  | ch :: channels' =>
      match matchesFuzzy (mName ch) channelSelector with
      | Some matchId =>
          (matchId, i) :: collectMatches channelSelector (S i) channels'
      | None => collectMatches channelSelector (S i) channels'
      end
  end.

(** The order of [pair<size_t, size_t>]: [a <= b], that is [!(b < a)]. *)
Definition pair_le (a b : nat * nat) : Prop :=
  (a.1 < b.1 \/ (a.1 = b.1 /\ a.2 <= b.2))%nat.

#[local] Instance pair_le_dec : RelDecision pair_le.
Proof. intros a b. unfold pair_le. apply _. Defined.

(** Line 102: [std::sort] of the pairs. The pairs differ in their
    second component, so the sorted arrangement is unique and any
    sorting algorithm computes it. *)
Definition sortMatches (matches : list (nat * nat)) : list (nat * nat) :=
  merge_sort pair_le matches.

(** Lines 93-107. *)
Definition selectChannels (channelSelector : string)
    (channels : list Channel) : list Channel :=
  let matches := collectMatches channelSelector 0 channels in
  let matches :=
    if negb (String.eqb channelSelector "") then sortMatches matches
    else matches in
  omap (fun m : nat * nat => channels !! m.2) matches.

(** *** [load] (lines 24-116)

    Returns the outcome together with the stream as [load] leaves
    it; on success the outcome holds the image and the value stored in
    [hasPremultipliedAlpha]. *)
Definition load (sched : schedule) (iStream : istream)
    (channelSelector : string) : outcome (ImageData * bool) * istream :=
  let '(magic, size, scale, iStream) := readHeader uninit iStream in
  match numChannels_of_magic magic with
  | None => (Throw (InvalidMagic magic), iStream)
  | Some numChannels =>
    if negb (Float32.isfinite scale) || Float32.eqb scale Float32.zero
    then (Throw (InvalidScale scale), iStream)
    else
      let isPfmLittleEndian := Float32.ltb scale Float32.zero in
      let scale := Float32.abs scale in
      let channels := makeNChannels channelName numChannels size in
      let numPixels := to_DenseIndex (size.1 * size.2) in
      if numPixels =? 0 then (Throw ZeroPixels, iStream)
      else
        let numFloats := to_DenseIndex (numPixels * numChannels) in
        let numBytes := to_size_t (to_size_t numFloats * sizeof_float) in
        let iStream := skipHeaderLine iStream in
        if vector_float_max_size <? to_size_t numFloats
        then (ThrowLengthError, iStream)
        else
          let '(bytes, iStream) := read (to_streamsize numBytes) iStream in
          if Z.of_nat (gcount iStream) <? to_streamsize numBytes
          then (Throw (NotSufficientBytes (Z.of_nat (gcount iStream))
                                          numBytes), iStream)
          else
            let data := floats_of_bytes bytes in
            let shallSwapBytes :=
              negb (Bool.eqb isSystemLittleEndian isPfmLittleEndian) in
            match decode data shallSwapBytes scale size numChannels
                         sched channels with
            | None => (Undefined, iStream)
            | Some channels =>
                (Ok (Build_ImageData
                       (selectChannels channelSelector channels)
                       [EmptyString],
                     false), iStream)
            end
  end.

End Load.

End PfmImageLoader.

(* ===================================================================== *)
(** ** Concrete streams and collaborators *)
(* ===================================================================== *)

Module Examples.
Import IStream Image PfmImageLoader.

Definition text (s : string) : list ascii := list_ascii_of_string s.
Definition bytes (l : list Z) : list ascii :=
  map (fun z => ascii_of_N (Z.to_N z)) l.
Definition newline : ascii := "010"%char.

(** A header in its usual three lines. *)
Definition header (magic width height scale : string) : list ascii :=
  text magic ++ [newline] ++ text width ++ [" "%char] ++ text height
  ++ [newline] ++ text scale ++ [newline].

(** Channel names: R, G, B, A. *)
Definition rgba (count i : nat) : string :=
  match i with
  | O => "R" | 1%nat => "G" | 2%nat => "B" | _ => "A"
  end%string.

(** A matcher: the empty selector matches every name; otherwise a name
    matches where it occurs in the selector, and that place is its
    rank. *)
Definition occursIn (name selector : string) : option nat :=
  if String.eqb selector "" then Some 0%nat
  else String.index 0 name selector.

Definition zeros : Uninitialised := Build_Uninitialised 0 0 Float32.zero.

(** The bytes of the floats 1, 2, 3 and 4, least significant byte
    first. *)
Definition one_le : list Z := [0; 0; 128; 63].
Definition two_le : list Z := [0; 0; 0; 64].
Definition three_le : list Z := [0; 0; 64; 64].
Definition four_le : list Z := [0; 0; 128; 64].

Definition f32_2_5 : Float32.float := S754_finite false 10485760 (-22).

End Examples.

(* ===================================================================== *)
(** ** Notions used to state the properties *)
(* ===================================================================== *)

Module DecodeSpec.
Import Image PfmImageLoader.

(** Two steps that give the same result in either order. *)
Definition commutes {S : Type} (f g : S -> option S) : Prop :=
  forall s, f s ≫= g = g s ≫= f.

(** Rows started from the last to the first. *)
Definition backwards : schedule := fun a b => reverse (seqZ a (b - a)).

(** The number stored for a raw sample: its bytes reversed when
    [shallSwapBytes] holds, read as a float of the host, times the scale. *)
Definition decoded (isSystemLittleEndian shallSwapBytes : bool)
    (scale : Float32.float) (raw : Float32.rep) : Float32.float :=
  Float32.mul scale
    (Float32.value isSystemLittleEndian
       (if shallSwapBytes then swapBytes raw else raw)).

Section Samples.

Variable isSystemLittleEndian : bool.
Variable data : list Float32.rep.
Variable shallSwapBytes : bool.
Variable scale : Float32.float.
Variables size_x size_y numChannels : Z.

Abbreviation decoded := (decoded isSystemLittleEndian shallSwapBytes scale).

(** The rows, columns and channels of the image. *)
Definition in_image (y x c : Z) : Prop :=
  0 <= y < size_y /\ 0 <= x < size_x /\ 0 <= c < numChannels.

(** The flat index of a sample. *)
Definition flat (y x c : Z) : Z := (y * size_x + x) * numChannels + c.

(** The states of the channels while decoding: [W] tells which samples
    have been stored. *)
Definition stored (W : Z -> Z -> Z -> Prop) (channels0 channels : list Channel)
  : Prop :=
  mName <$> channels = mName <$> channels0 /\
  mSize <$> channels = mSize <$> channels0 /\
  forall y x c, in_image y x c -> W y x c ->
    exists ch raw,
      channels !! Z.to_nat c = Some ch /\
      data !! Z.to_nat (flat y x c) = Some raw /\
      mData ch !! (x, size_y - 1 - y) = Some (decoded raw).

End Samples.

End DecodeSpec.

(* ===================================================================== *)
(** ** Properties of the machine integers *)
(* ===================================================================== *)

Section MachineIntFacts.

Lemma wrap_signed_id (bits z : Z) :
  0 < bits -> - 2 ^ (bits - 1) <= z < 2 ^ (bits - 1) ->
  wrap_signed bits z = z.
Proof.
  intros Hb Hz. unfold wrap_signed.
  assert (Hp : 2 ^ bits = 2 * 2 ^ (bits - 1)).
  { replace bits with (Z.succ (bits - 1)) at 1 by lia.
    apply Z.pow_succ_r. lia. }
  rewrite Z.mod_small; lia.
Qed.

Lemma to_int_id (z : Z) : INT_MIN <= z <= INT_MAX -> to_int z = z.
Proof.
  unfold INT_MIN, INT_MAX, to_int. intros H.
  apply wrap_signed_id; [lia|]. change (32 - 1) with 31. lia.
Qed.

Lemma to_int_range (z : Z) : INT_MIN <= to_int z <= INT_MAX.
Proof.
  unfold to_int, wrap_signed, INT_MIN, INT_MAX.
  change (32 - 1) with 31.
  pose proof (Z.mod_pos_bound (z + 2 ^ 31) (2 ^ 32) ltac:(lia)).
  change (2 ^ 32) with (2 * 2 ^ 31) in *. lia.
Qed.

Lemma to_DenseIndex_id (z : Z) :
  - 2 ^ 63 <= z < 2 ^ 63 -> to_DenseIndex z = z.
Proof. intros H. apply wrap_signed_id; [lia|]. change (64 - 1) with 63. lia. Qed.

Lemma to_streamsize_id (z : Z) :
  - 2 ^ 63 <= z < 2 ^ 63 -> to_streamsize z = z.
Proof. apply to_DenseIndex_id. Qed.

Lemma to_size_t_id (z : Z) : 0 <= z < 2 ^ 64 -> to_size_t z = z.
Proof. intros H. unfold to_size_t. apply Z.mod_small. lia. Qed.

(** The pixel count of two [int]s always fits a [DenseIndex]. *)
Lemma numPixels_exact (x y : Z) :
  INT_MIN <= x <= INT_MAX -> INT_MIN <= y <= INT_MAX ->
  to_DenseIndex (x * y) = x * y.
Proof.
  unfold INT_MIN, INT_MAX. intros Hx Hy. apply to_DenseIndex_id. nia.
Qed.

End MachineIntFacts.

(* ===================================================================== *)
(** ** Properties of the stream operations *)
(* ===================================================================== *)

Module IStreamFacts.
Import IStream.

Lemma istream_eq (s t : istream) :
  content s = content t -> pos s = pos t -> eofbit s = eofbit t ->
  failbit s = failbit t -> badbit s = badbit t -> gcount s = gcount t ->
  s = t.
Proof. destruct s, t; simpl; intros; subst; reflexivity. Qed.

Lemma good_bits (s : istream) :
  good s = true <->
  eofbit s = false /\ failbit s = false /\ badbit s = false.
Proof.
  unfold good. destruct (eofbit s), (failbit s), (badbit s); simpl; intuition congruence.
Qed.

Lemma good_not_fail (s : istream) : good s = true -> fail s = false.
Proof. rewrite good_bits. unfold fail. intros (_ & -> & ->). reflexivity. Qed.

Lemma rest_advance (n : nat) (s : istream) :
  rest (advance n s) = drop n (rest s).
Proof.
  unfold rest, advance; simpl. rewrite drop_drop. reflexivity.
Qed.

Lemma rest_set_gcount (n : nat) (s : istream) : rest (set_gcount n s) = rest s.
Proof. reflexivity. Qed.


(** *** [read] *)

(** On a good stream [read] takes the next [n] bytes, or all that is
    left when there are fewer. *)
Lemma read_good (n : Z) (s : istream) :
  good s = true ->
  (read n s).1 = take (Z.to_nat n) (rest s) /\
  pos (read n s).2 = (pos s + length (take (Z.to_nat n) (rest s)))%nat /\
  gcount (read n s).2 = length (take (Z.to_nat n) (rest s)) /\
  content (read n s).2 = content s.
Proof.
  intros Hg. unfold read. rewrite Hg.
  destruct (Z.of_nat (length (take (Z.to_nat n) (rest s))) =? n); simpl; auto.
Qed.



(** *** [get] *)

Lemma get_good_cons (s : istream) (c : ascii) (l : list ascii) :
  good s = true -> rest s = c :: l ->
  get s = (Some c, set_gcount 1 (advance 1 s)).
Proof. intros Hg Hr. unfold get. rewrite Hg, Hr. reflexivity. Qed.


Lemma extract_int_range (old : Z) (s : istream) :
  INT_MIN <= old <= INT_MAX ->
  INT_MIN <= (extract_int old s).1 <= INT_MAX.
Proof.
  intros Hold. unfold extract_int.
  destruct (sentry s) as [[] s1]; [|exact Hold].
  destruct (take_sign (rest s1)) as [sign l1].
  destruct (span isdigit l1) as [ds after].
  destruct ds as [|d ds]; [simpl; unfold INT_MIN, INT_MAX; lia|].
  set (v := if negative sign then _ else _).
  destruct (Z.ltb_spec v INT_MIN); [simpl; unfold INT_MIN, INT_MAX; lia|].
  destruct (Z.ltb_spec INT_MAX v); simpl; unfold INT_MIN, INT_MAX in *; lia.
Qed.

End IStreamFacts.

(* ===================================================================== *)
(** ** Properties of the pieces of [load] *)
(* ===================================================================== *)

Module LoaderFacts.
Import IStream Image PfmImageLoader DecodeSpec IStreamFacts.

(** *** The loop that skips the end of the header *)

Lemma rest_after_get (s : istream) :
  rest (set_gcount 1 (advance 1 s)) = drop 1 (rest s).
Proof. rewrite rest_set_gcount. apply rest_advance. Qed.

Lemma good_after_get (s : istream) :
  good (set_gcount 1 (advance 1 s)) = good s.
Proof. reflexivity. Qed.

(** The loop does not depend on its fuel, once there is more fuel than
    bytes left: [skipHeaderLine] is the loop of the source, which ends. *)
Lemma skipLoop_fuel (n m : nat) (s : istream) :
  (length (rest s) < n)%nat -> (length (rest s) < m)%nat ->
  skipLoop n s = skipLoop m s.
Proof.
  revert m s. induction n as [|n IH]; intros m s Hn Hm; [lia|].
  destruct m as [|m]; [lia|]. simpl. unfold get.
  destruct (good s) eqn:Hg; [|reflexivity].
  destruct (rest s) as [|c l] eqn:Hr; [reflexivity|].
  destruct (negb (fail _) && negb (is_eol c)); [|reflexivity].
  apply IH; rewrite rest_after_get, Hr; simpl in *; rewrite drop_0; lia.
Qed.

(** With a line terminator ahead, the loop stops right behind the first
    one. *)
Lemma skipLoop_to_eol (g : list ascii) (t : ascii) (payload : list ascii) :
  forall (fuel : nat) (s : istream),
  good s = true -> rest s = g ++ t :: payload ->
  Forall (fun c => is_eol c = false) g -> is_eol t = true ->
  (length g < fuel)%nat ->
  skipLoop fuel s = set_gcount 1 (advance (S (length g)) s).
Proof.
  induction g as [|c g IH]; intros fuel s Hg Hr Hno Ht Hf.
  - destruct fuel as [|fuel]; [simpl in Hf; lia|]. simpl.
    rewrite (get_good_cons s t payload Hg Hr). rewrite Ht.
    rewrite andb_false_r. reflexivity.
  - destruct fuel as [|fuel]; [simpl in Hf; lia|]. simpl.
    rewrite (get_good_cons s c (g ++ t :: payload) Hg Hr).
    inversion Hno as [|? ? Hc Hg']; subst.
    rewrite Hc. rewrite good_not_fail by (rewrite good_after_get; exact Hg).
    simpl negb. simpl andb.
    rewrite (IH fuel); try assumption.
    + apply istream_eq; simpl; try reflexivity. lia.
    + rewrite rest_after_get, Hr. reflexivity.
    + simpl in Hf. lia.
Qed.

Lemma skipHeaderLine_to_eol (g : list ascii) (t : ascii)
    (payload : list ascii) (s : istream) :
  good s = true -> rest s = g ++ t :: payload ->
  Forall (fun c => is_eol c = false) g -> is_eol t = true ->
  skipHeaderLine s = set_gcount 1 (advance (S (length g)) s).
Proof.
  intros Hg Hr Hno Ht. unfold skipHeaderLine.
  apply (skipLoop_to_eol g t payload); try assumption.
  rewrite Hr, length_app. simpl. lia.
Qed.

(** *** Loops *)


Lemma commutes_sym {S : Type} (f g : S -> option S) :
  commutes f g -> commutes g f.
Proof. intros H s. symmetry. apply H. Qed.

Lemma commutes_refl {S : Type} (f : S -> option S) : commutes f f.
Proof. intros s. reflexivity. Qed.

Lemma commutes_undefined {S : Type} (g : S -> option S) :
  commutes (fun _ => None) g.
Proof. intros s. simpl. destruct (g s); reflexivity. Qed.

Lemma forM_cons {S : Type} (i : Z) (l : list Z) (body : Z -> S -> option S)
    (s : S) :
  forM (i :: l) body s = body i s ≫= forM l body.
Proof. reflexivity. Qed.

Lemma commutes_forM {S : Type} (f : S -> option S)
    (body : Z -> S -> option S) (l : list Z) :
  (forall j, j ∈ l -> commutes f (body j)) -> commutes f (forM l body).
Proof.
  induction l as [|a l IH]; intros H s.
  - simpl. destruct (f s); reflexivity.
  - assert (Ha : commutes f (body a)) by (apply H; left).
    assert (IHl : commutes f (forM l body)).
    { apply IH. intros j Hj. apply H. right. exact Hj. }
    rewrite forM_cons. specialize (Ha s).
    destruct (f s) as [s1|] eqn:Hf; simpl in *.
    + rewrite Ha.
      destruct (body a s) as [s2|]; simpl; [apply IHl|reflexivity].
    + destruct (body a s) as [s2|]; simpl in *; [|reflexivity].
      rewrite <- (IHl s2). rewrite <- Ha. reflexivity.
Qed.

(** Bodies that commute pairwise can run in any order. *)
Lemma forM_Permutation {S : Type} (body : Z -> S -> option S)
    (l l' : list Z) :
  l ≡ₚ l' ->
  (forall i j, i ∈ l -> j ∈ l -> commutes (body i) (body j)) ->
  forall s, forM l body s = forM l' body s.
Proof.
  induction 1 as [|x l l' Hp IH|x y l|l l' l'' Hp1 IH1 Hp2 IH2];
    intros Hc s.
  - reflexivity.
  - simpl. destruct (body x s); [|reflexivity].
    apply IH. intros i j Hi Hj. apply Hc; right; assumption.
  - simpl.
    assert (Hxy : commutes (body y) (body x)).
    { apply Hc; [left|right; left]. }
    specialize (Hxy s). simpl in Hxy.
    destruct (body y s) as [s1|], (body x s) as [s2|]; simpl in *.
    + rewrite Hxy. reflexivity.
    + rewrite Hxy. reflexivity.
    + rewrite <- Hxy. reflexivity.
    + reflexivity.
  - rewrite IH1 by exact Hc. apply IH2.
    intros i j Hi Hj. apply Hc; rewrite Hp1; assumption.
Qed.

(** A loop whose body keeps an invariant [I] of the indices done. *)
Lemma forM_invariant {S : Type} (I : list Z -> S -> Prop)
    (body : Z -> S -> option S) (l : list Z) :
  forall (pre : list Z) (s : S),
  I pre s ->
  (forall done i s, i ∈ l -> I done s ->
     exists s', body i s = Some s' /\ I (done ++ [i]) s') ->
  exists s', forM l body s = Some s' /\ I (pre ++ l) s'.
Proof.
  induction l as [|i l IH]; intros pre s HI Hstep.
  - exists s. rewrite app_nil_r. split; [reflexivity|exact HI].
  - destruct (Hstep pre i s) as (s1 & Hb & HI1); [left|exact HI|].
    simpl. rewrite Hb.
    destruct (IH (pre ++ [i]) s1 HI1) as (s2 & Hf & HI2).
    + intros done j s' Hj. apply Hstep. right. exact Hj.
    + exists s2. split; [exact Hf|].
      rewrite <- app_assoc in HI2. exact HI2.
Qed.

(** A loop one body of which is undefined in every state is undefined. *)
Lemma forM_undefined {S : Type} (body : Z -> S -> option S) (l : list Z)
    (i : Z) :
  i ∈ l -> (forall s, body i s = None) -> forall s, forM l body s = None.
Proof.
  induction l as [|a l IH]; intros Hin Hb s.
  - inversion Hin.
  - simpl. apply elem_of_cons in Hin as [->|Hin].
    + rewrite Hb. reflexivity.
    + destruct (body a s); [apply IH; assumption|reflexivity].
Qed.

End LoaderFacts.

(* ===================================================================== *)
(** ** The decode loops *)
(* ===================================================================== *)

Module DecodeFacts.
Import IStream Image PfmImageLoader DecodeSpec IStreamFacts LoaderFacts.

(** *** Writes to different cells commute *)

Lemma writeSample_commutes (c c' : Z) (p p' : Z * Z)
    (v v' : Float32.float) :
  Z.to_nat c ≠ Z.to_nat c' \/ p ≠ p' ->
  commutes (writeSample c p v) (writeSample c' p' v').
Proof.
  intros Hd chs. unfold writeSample.
  destruct (decide (Z.to_nat c = Z.to_nat c')) as [E|NE].
  - rewrite <- E. destruct Hd as [Hd|Hd]; [congruence|].
    destruct (chs !! Z.to_nat c) as [ch|] eqn:Hl; simpl; [|reflexivity].
    pose proof (lookup_lt_Some _ _ _ Hl) as Hlt.
    rewrite !list_lookup_insert_eq by exact Hlt.
    rewrite !list_insert_insert_eq. unfold set_at; simpl.
    rewrite insert_insert_ne by congruence. reflexivity.
  - destruct (chs !! Z.to_nat c) as [ch|] eqn:Hl,
             (chs !! Z.to_nat c') as [ch'|] eqn:Hl'; simpl.
    + rewrite list_lookup_insert_ne by congruence.
      rewrite list_lookup_insert_ne by congruence.
      rewrite Hl, Hl'. rewrite list_insert_insert_ne by congruence.
      reflexivity.
    + rewrite list_lookup_insert_ne by congruence. rewrite Hl'. reflexivity.
    + rewrite list_lookup_insert_ne by congruence. rewrite Hl. reflexivity.
    + reflexivity.
Qed.

Section Decode.

Variable isSystemLittleEndian : bool.
Variable data : list Float32.rep.
Variable shallSwapBytes : bool.
Variable scale : Float32.float.
Variables size_x size_y numChannels : Z.

Abbreviation size := (size_x, size_y).
Abbreviation decodeSample :=
  (decodeSample isSystemLittleEndian data shallSwapBytes scale size).
Abbreviation decodePixel :=
  (decodePixel isSystemLittleEndian data shallSwapBytes scale size
               numChannels).
Abbreviation decodeRow :=
  (decodeRow isSystemLittleEndian data shallSwapBytes scale size
             numChannels).
Abbreviation decode :=
  (decode isSystemLittleEndian data shallSwapBytes scale size numChannels).

(** Two samples that go to different channels or to different
    coordinates can be decoded in either order, also when the read of
    one of them is undefined. *)
Lemma decodeSample_commutes (y x b c y' x' b' c' : Z) :
  Z.to_nat c ≠ Z.to_nat c' \/
  (x, to_int (size_y - y - 1)) ≠ (x', to_int (size_y - y' - 1)) ->
  commutes (decodeSample y x b c) (decodeSample y' x' b' c').
Proof.
  intros Hd. unfold PfmImageLoader.decodeSample. simpl.
  destruct (data_at data (to_int (b + c))) as [val|].
  - destruct (data_at data (to_int (b' + c'))) as [val'|].
    + apply writeSample_commutes. exact Hd.
    + apply commutes_sym, commutes_undefined.
  - apply commutes_undefined.
Qed.

(** Rows that are flipped to different rows of the channels commute. *)
Lemma decodeRow_commutes (y y' : Z) :
  to_int (size_y - y - 1) ≠ to_int (size_y - y' - 1) ->
  commutes (decodeRow y) (decodeRow y').
Proof.
  intros Hy. unfold PfmImageLoader.decodeRow.
  apply commutes_sym, commutes_forM. intros x' _.
  apply commutes_sym, commutes_forM. intros x _.
  unfold PfmImageLoader.decodePixel.
  apply commutes_sym, commutes_forM. intros c' _.
  apply commutes_sym, commutes_forM. intros c _.
  apply commutes_sym, decodeSample_commutes. right. simpl. congruence.
Qed.

(** Distinct rows of an image are flipped to distinct rows. *)
Lemma flip_injective (y y' : Z) :
  INT_MIN <= size_y <= INT_MAX ->
  0 <= y < size_y -> 0 <= y' < size_y -> y ≠ y' ->
  to_int (size_y - y - 1) ≠ to_int (size_y - y' - 1).
Proof.
  unfold INT_MIN, INT_MAX. intros Hs Hy Hy' Hne.
  rewrite !to_int_id by (unfold INT_MIN, INT_MAX; lia). lia.
Qed.

(** The rows of [decode] can be run in any order. *)
Lemma decode_any_order (order : list Z) (channels : list Channel) :
  INT_MIN <= size_y <= INT_MAX ->
  order ≡ₚ seqZ 0 size_y ->
  forM order decodeRow channels = forM (seqZ 0 size_y) decodeRow channels.
Proof.
  intros Hs Hp. apply forM_Permutation; [exact Hp|].
  intros i j Hi Hj. rewrite Hp in Hi, Hj.
  apply elem_of_seqZ in Hi, Hj.
  destruct (decide (i = j)) as [->|Hne]; [apply commutes_refl|].
  apply decodeRow_commutes, flip_injective; try assumption; lia.
Qed.

Lemma decode_schedule (sched : schedule) (channels : list Channel) :
  INT_MIN <= size_y <= INT_MAX ->
  fair sched ->
  decode sched channels = decode sequential channels.
Proof.
  intros Hs Hf. unfold PfmImageLoader.decode, parallelFor, sequential.
  simpl. rewrite Z.sub_0_r.
  apply decode_any_order; [exact Hs|].
  rewrite (Hf 0 size_y), Z.sub_0_r. reflexivity.
Qed.

End Decode.

End DecodeFacts.

(* ===================================================================== *)
(** ** What the decode loops compute *)
(* ===================================================================== *)

Module DecodeCorrect.
Import IStream Image PfmImageLoader DecodeSpec.
Import IStreamFacts LoaderFacts DecodeFacts.

Section Decode.

Variable isSystemLittleEndian : bool.
Variable data : list Float32.rep.
Variable shallSwapBytes : bool.
Variable scale : Float32.float.
Variables size_x size_y numChannels : Z.

Hypothesis size_x_pos : 0 < size_x.
Hypothesis size_y_pos : 0 < size_y.
Hypothesis size_y_max : size_y <= INT_MAX.
Hypothesis numChannels_pos : 0 < numChannels.
(** Every index into [data] fits an [int]. *)
Hypothesis fits_int : size_x * size_y * numChannels <= INT_MAX + 1.
Hypothesis data_length :
  length data = Z.to_nat (size_x * size_y * numChannels).

Abbreviation size := (size_x, size_y).
Abbreviation decodeSample :=
  (decodeSample isSystemLittleEndian data shallSwapBytes scale size).
Abbreviation decodePixel :=
  (decodePixel isSystemLittleEndian data shallSwapBytes scale size
               numChannels).
Abbreviation decodeRow :=
  (decodeRow isSystemLittleEndian data shallSwapBytes scale size
             numChannels).
Abbreviation decode :=
  (decode isSystemLittleEndian data shallSwapBytes scale size numChannels).
Abbreviation decoded := (decoded isSystemLittleEndian shallSwapBytes scale).
Abbreviation in_image := (in_image size_x size_y numChannels).
Abbreviation flat := (flat size_x numChannels).
Abbreviation stored :=
  (stored isSystemLittleEndian data shallSwapBytes scale size_x size_y
          numChannels).

Lemma flat_range (y x c : Z) :
  in_image y x c ->
  0 <= (y * size_x + x) * numChannels /\
  0 <= flat y x c < size_x * size_y * numChannels.
Proof.
  unfold DecodeSpec.in_image, DecodeSpec.flat. intros (Hy & Hx & Hc).
  assert (H1 : 0 <= y * size_x + x <= size_x * size_y - 1) by nia.
  assert (H2 : (y * size_x + x) * numChannels
               <= (size_x * size_y - 1) * numChannels).
  { apply Z.mul_le_mono_nonneg_r; lia. }
  assert (H3 : 0 <= (y * size_x + x) * numChannels).
  { apply Z.mul_nonneg_nonneg; lia. }
  lia.
Qed.

Lemma size_y_int : INT_MIN <= size_y <= INT_MAX.
Proof. unfold INT_MIN, INT_MAX in *. lia. Qed.


Lemma stored_weaken (W W' : Z -> Z -> Z -> Prop) (chs0 chs : list Channel) :
  stored W chs0 chs ->
  (forall y x c, in_image y x c -> W' y x c -> W y x c) ->
  stored W' chs0 chs.
Proof.
  intros (Hn & Hs & Hw) Hsub. split; [exact Hn|]. split; [exact Hs|].
  intros y x c Hin HW'. apply Hw; [exact Hin|]. apply Hsub; assumption.
Qed.

Lemma stored_length (W : Z -> Z -> Z -> Prop) (chs0 chs : list Channel) :
  stored W chs0 chs -> length chs = length chs0.
Proof.
  intros (Hn & _). apply (f_equal length) in Hn.
  rewrite !length_fmap in Hn. exact Hn.
Qed.

(** One sample. *)
Lemma decodeSample_stored (W : Z -> Z -> Z -> Prop) (chs0 chs : list Channel)
    (y x c : Z) :
  length chs0 = Z.to_nat numChannels ->
  in_image y x c -> stored W chs0 chs ->
  exists chs',
    decodeSample y x (to_int ((y * size_x + x) * numChannels)) c chs
      = Some chs' /\
    stored (fun y' x' c' => W y' x' c' \/ (y' = y /\ x' = x /\ c' = c))
           chs0 chs'.
Proof.
  intros Hlen Hin Hst.
  pose proof (flat_range y x c Hin) as (Hb & Hf).
  unfold DecodeSpec.flat in Hf.
  pose proof size_y_int as Hyi.
  pose proof (stored_length _ _ _ Hst) as Hl.
  destruct Hin as (Hy & Hx & Hc).
  unfold PfmImageLoader.decodeSample, data_at. simpl.
  unfold INT_MIN, INT_MAX in *.
  rewrite (to_int_id ((y * size_x + x) * numChannels))
    by (unfold INT_MIN, INT_MAX; lia).
  rewrite (to_int_id ((y * size_x + x) * numChannels + c))
    by (unfold INT_MIN, INT_MAX; lia).
  rewrite (to_int_id (size_y - y - 1)) by (unfold INT_MIN, INT_MAX; lia).
  destruct (Z.ltb_spec ((y * size_x + x) * numChannels + c) 0) as [?|_];
    [lia|].
  destruct (lookup_lt_is_Some_2 data
              (Z.to_nat ((y * size_x + x) * numChannels + c)))
    as [raw Hraw]; [lia|].
  rewrite Hraw. unfold writeSample.
  destruct (lookup_lt_is_Some_2 chs (Z.to_nat c)) as [ch Hch]; [lia|].
  rewrite Hch. eexists. split; [reflexivity|].
  destruct Hst as (Hn & Hs & Hw).
  split; [|split].
  - rewrite list_fmap_insert. rewrite list_insert_id; [exact Hn|].
    rewrite list_lookup_fmap, Hch. reflexivity.
  - rewrite list_fmap_insert. rewrite list_insert_id; [exact Hs|].
    rewrite list_lookup_fmap, Hch. reflexivity.
  - intros y' x' c' Hin' HW'.
    destruct (decide (y' = y /\ x' = x /\ c' = c)) as [(-> & -> & ->)|Hne].
    + exists (set_at (x, size_y - y - 1)
                (decoded raw) ch), raw.
      rewrite list_lookup_insert_eq by (apply lookup_lt_Some in Hch; exact Hch).
      split; [reflexivity|]. split; [exact Hraw|].
      unfold set_at; simpl.
      replace (size_y - 1 - y) with (size_y - y - 1) by lia.
      apply lookup_insert_eq.
    + destruct HW' as [HW'|HW']; [|contradiction].
      destruct (Hw y' x' c' Hin' HW') as (ch' & raw' & Hch' & Hraw' & Hd').
      destruct Hin' as (Hy' & Hx' & Hc').
      destruct (decide (c' = c)) as [->|Hcc].
      * rewrite Hch in Hch'. injection Hch' as <-.
        exists (set_at (x, size_y - y - 1) (decoded raw) ch), raw'.
        rewrite list_lookup_insert_eq
          by (apply lookup_lt_Some in Hch; exact Hch).
        split; [reflexivity|]. split; [exact Hraw'|].
        unfold set_at; simpl. rewrite lookup_insert_ne; [exact Hd'|].
        intros [= E1 E2]. apply Hne. repeat split; lia.
      * exists ch', raw'.
        rewrite list_lookup_insert_ne by lia.
        repeat split; assumption.
Qed.

(** One pixel: the loop over [c]. *)
Lemma decodePixel_stored (W : Z -> Z -> Z -> Prop) (chs0 chs : list Channel)
    (y x : Z) :
  length chs0 = Z.to_nat numChannels ->
  0 <= y < size_y -> 0 <= x < size_x -> stored W chs0 chs ->
  exists chs',
    decodePixel y x chs = Some chs' /\
    stored (fun y' x' c' => W y' x' c' \/ (y' = y /\ x' = x)) chs0 chs'.
Proof.
  intros Hlen Hy Hx Hst. unfold PfmImageLoader.decodePixel. simpl.
  destruct (forM_invariant
    (fun done chs =>
       stored (fun y' x' c' => W y' x' c' \/ (y' = y /\ x' = x /\ c' ∈ done))
              chs0 chs)
    (decodeSample y x (to_int ((y * size_x + x) * numChannels)))
    (seqZ 0 numChannels) [] chs) as (chs' & Hf & HI).
  - eapply stored_weaken; [exact Hst|].
    intros y' x' c' _ [H|(_ & _ & H)]; [exact H|inversion H].
  - intros done c s Hc HI. apply elem_of_seqZ in Hc.
    assert (Hin : in_image y x c) by (repeat split; lia).
    destruct (decodeSample_stored _ chs0 s y x c Hlen Hin HI)
      as (s' & Hs' & Hst').
    exists s'. split; [exact Hs'|].
    eapply stored_weaken; [exact Hst'|].
    intros y' x' c' _ [H|(-> & -> & H)]; [left; left; exact H|].
    apply elem_of_app in H as [H|H].
    + left. right. auto.
    + apply list_elem_of_singleton in H. right. auto.
  - exists chs'. split; [exact Hf|].
    eapply stored_weaken; [exact HI|].
    intros y' x' c' (_ & _ & Hc') [H|(-> & ->)]; [left; exact H|].
    right. repeat split. simpl. apply elem_of_seqZ. lia.
Qed.

(** One row: the loop over [x]. *)
Lemma decodeRow_stored (W : Z -> Z -> Z -> Prop) (chs0 chs : list Channel)
    (y : Z) :
  length chs0 = Z.to_nat numChannels ->
  0 <= y < size_y -> stored W chs0 chs ->
  exists chs',
    decodeRow y chs = Some chs' /\
    stored (fun y' x' c' => W y' x' c' \/ y' = y) chs0 chs'.
Proof.
  intros Hlen Hy Hst. unfold PfmImageLoader.decodeRow. simpl.
  destruct (forM_invariant
    (fun done chs =>
       stored (fun y' x' c' => W y' x' c' \/ (y' = y /\ x' ∈ done)) chs0 chs)
    (decodePixel y) (seqZ 0 size_x) [] chs) as (chs' & Hf & HI).
  - eapply stored_weaken; [exact Hst|].
    intros y' x' c' _ [H|(_ & H)]; [exact H|inversion H].
  - intros done x s Hx HI. apply elem_of_seqZ in Hx.
    assert (Hx' : 0 <= x < size_x) by lia.
    destruct (decodePixel_stored _ chs0 s y x Hlen Hy Hx' HI)
      as (s' & Hs' & Hst').
    exists s'. split; [exact Hs'|].
    eapply stored_weaken; [exact Hst'|].
    intros y' x' c' _ [H|(-> & H)]; [left; left; exact H|].
    apply elem_of_app in H as [H|H].
    + left. right. auto.
    + apply list_elem_of_singleton in H. right. auto.
  - exists chs'. split; [exact Hf|].
    eapply stored_weaken; [exact HI|].
    intros y' x' c' (_ & Hx' & _) [H|E]; [left; exact H|].
    right. split; [exact E|]. simpl. apply elem_of_seqZ. lia.
Qed.

(** All rows, one after the other. *)
Lemma decode_sequential_stored (chs0 : list Channel) :
  length chs0 = Z.to_nat numChannels ->
  exists chs,
    decode sequential chs0 = Some chs /\
    stored (fun _ _ _ => True) chs0 chs.
Proof.
  intros Hlen.
  unfold PfmImageLoader.decode, parallelFor, sequential. simpl.
  rewrite Z.sub_0_r.
  destruct (forM_invariant
    (fun done chs => stored (fun y' _ _ => y' ∈ done) chs0 chs)
    decodeRow (seqZ 0 size_y) [] chs0) as (chs' & Hf & HI).
  - split; [reflexivity|]. split; [reflexivity|].
    intros y x c _ H. inversion H.
  - intros done y s Hy HI. apply elem_of_seqZ in Hy.
    assert (Hy' : 0 <= y < size_y) by lia.
    destruct (decodeRow_stored _ chs0 s y Hlen Hy' HI) as (s' & Hs' & Hst').
    exists s'. split; [exact Hs'|].
    eapply stored_weaken; [exact Hst'|].
    intros y' x' c' _ H. apply elem_of_app in H as [H|H]; [left; exact H|].
    apply list_elem_of_singleton in H. right. exact H.
  - exists chs'. split; [exact Hf|].
    eapply stored_weaken; [exact HI|].
    intros y' x' c' (Hy' & _) _. simpl. apply elem_of_seqZ. lia.
Qed.

(** Under any fair schedule the decode is defined, keeps the names and
    sizes of the channels, and stores every sample, scaled and swapped as
    asked, at its flipped coordinate. *)
Lemma decode_stored (sched : schedule) (chs0 : list Channel) :
  fair sched ->
  length chs0 = Z.to_nat numChannels ->
  exists chs,
    decode sched chs0 = Some chs /\
    mName <$> chs = mName <$> chs0 /\
    mSize <$> chs = mSize <$> chs0 /\
    forall y x c, 0 <= y < size_y -> 0 <= x < size_x -> 0 <= c < numChannels ->
      exists ch raw,
        chs !! Z.to_nat c = Some ch /\
        data !! Z.to_nat ((y * size_x + x) * numChannels + c) = Some raw /\
        at_ ch (x, size_y - 1 - y) = decoded raw.
Proof.
  intros Hfair Hlen.
  destruct (decode_sequential_stored chs0 Hlen) as (chs & Hd & Hn & Hs & Hw).
  exists chs. rewrite (decode_schedule _ _ _ _ _ _ _ sched chs0 size_y_int Hfair).
  split; [exact Hd|]. split; [exact Hn|]. split; [exact Hs|].
  intros y x c Hy Hx Hc.
  destruct (Hw y x c) as (ch & raw & Hch & Hraw & Hv);
    [repeat split; lia|exact I|].
  exists ch, raw. split; [exact Hch|]. split; [exact Hraw|].
  unfold at_. rewrite Hv. reflexivity.
Qed.

End Decode.

End DecodeCorrect.

(* ===================================================================== *)
(** ** [load], stage by stage *)
(* ===================================================================== *)

Module LoadFacts.
Import IStream Image PfmImageLoader DecodeSpec.
Import IStreamFacts LoaderFacts DecodeFacts DecodeCorrect.

Lemma numChannels_of_magic_Some (magic : string) (n : Z) :
  numChannels_of_magic magic = Some n <->
  (magic = "Pf"%string /\ n = 1) \/ (magic = "PF"%string /\ n = 3) \/
  (magic = "PF4"%string /\ n = 4).
Proof.
  unfold numChannels_of_magic.
  destruct (String.eqb_spec magic "Pf") as [->|H1].
  { split; [intros [= <-]; auto|]. intros [(_ & ->)|[(E & _)|(E & _)]];
      [reflexivity|discriminate E|discriminate E]. }
  destruct (String.eqb_spec magic "PF") as [->|H2].
  { split; [intros [= <-]; auto|]. intros [(E & _)|[(_ & ->)|(E & _)]];
      [discriminate E|reflexivity|discriminate E]. }
  destruct (String.eqb_spec magic "PF4") as [->|H3].
  { split; [intros [= <-]; auto|]. intros [(E & _)|[(E & _)|(_ & ->)]];
      [discriminate E|discriminate E|reflexivity]. }
  split; [discriminate|]. intros [(E & _)|[(E & _)|(E & _)]]; contradiction.
Qed.


Lemma numChannels_range (magic : string) (n : Z) :
  numChannels_of_magic magic = Some n -> 1 <= n <= 4.
Proof.
  rewrite numChannels_of_magic_Some.
  intros [(_ & ->)|[(_ & ->)|(_ & ->)]]; lia.
Qed.

Lemma vector_float_max_size_eq : vector_float_max_size = 2 ^ 61 - 1.
Proof. reflexivity. Qed.

Lemma floats_of_bytes_length (n : nat) :
  forall l : list ascii,
  length l = (4 * n)%nat -> length (floats_of_bytes l) = n.
Proof.
  induction n as [|n IH]; intros l Hl.
  - destruct l; [reflexivity|discriminate].
  - destruct l as [|b0 [|b1 [|b2 [|b3 l]]]]; simpl in Hl; try lia.
    simpl. f_equal. apply IH. lia.
Qed.

Lemma makeNChannels_length (channelName : nat -> nat -> string)
    (numChannels : Z) (size : Z * Z) :
  length (makeNChannels channelName numChannels size) = Z.to_nat numChannels.
Proof. unfold makeNChannels. rewrite length_map, length_seq. reflexivity. Qed.

Section Load.

Variable isSystemLittleEndian : bool.
Variable matchesFuzzy : string -> string -> option nat.
Variable channelName : nat -> nat -> string.
Variable uninit : Uninitialised.

Abbreviation load :=
  (load isSystemLittleEndian matchesFuzzy channelName uninit).
Abbreviation selectChannels := (selectChannels matchesFuzzy).

(** The sizes read from the header are [int]s. *)
Lemma readHeader_int (s s1 : istream) (magic : string) (x y : Z)
    (scale : Float32.float) :
  readHeader uninit s = (magic, (x, y), scale, s1) ->
  (INT_MIN <= x <= INT_MAX) /\ (INT_MIN <= y <= INT_MAX).
Proof.
  unfold readHeader. intros H.
  destruct (extract_string EmptyString s) as [m sa].
  pose proof (extract_int_range (to_int (uninit_x uninit)) sa
                (to_int_range _)) as Hx.
  destruct (extract_int (to_int (uninit_x uninit)) sa) as [x' sb].
  pose proof (extract_int_range (to_int (uninit_y uninit)) sb
                (to_int_range _)) as Hy.
  destruct (extract_int (to_int (uninit_y uninit)) sb) as [y' sc].
  destruct (extract_float (uninit_scale uninit) sc) as [f sd].
  simpl in *. injection H as <- <- <- <- <-. auto.
Qed.

(** An unknown magic string: line 41. *)
Lemma load_invalid_magic (sched : schedule) (s s1 : istream) (sel : string)
    (magic : string) (size : Z * Z) (scale : Float32.float) :
  readHeader uninit s = (magic, size, scale, s1) ->
  numChannels_of_magic magic = None ->
  load sched s sel = (Throw (InvalidMagic magic), s1).
Proof.
  intros Hh Hm. unfold PfmImageLoader.load. rewrite Hh, Hm. reflexivity.
Qed.

(** A scale that is not finite or is zero: line 45. *)
Lemma load_invalid_scale (sched : schedule) (s s1 : istream) (sel : string)
    (magic : string) (size : Z * Z) (scale : Float32.float) (n : Z) :
  readHeader uninit s = (magic, size, scale, s1) ->
  numChannels_of_magic magic = Some n ->
  negb (Float32.isfinite scale) || Float32.eqb scale Float32.zero = true ->
  load sched s sel = (Throw (InvalidScale scale), s1).
Proof.
  intros Hh Hm Hs. unfold PfmImageLoader.load. rewrite Hh, Hm, Hs.
  reflexivity.
Qed.

(** No pixels: line 55. The stream is as the header left it. *)
Lemma load_zero_pixels (sched : schedule) (s s1 : istream) (sel : string)
    (magic : string) (x y : Z) (scale : Float32.float) (n : Z) :
  readHeader uninit s = (magic, (x, y), scale, s1) ->
  numChannels_of_magic magic = Some n ->
  negb (Float32.isfinite scale) || Float32.eqb scale Float32.zero = false ->
  x * y = 0 ->
  load sched s sel = (Throw ZeroPixels, s1).
Proof.
  intros Hh Hm Hs Hz. unfold PfmImageLoader.load. rewrite Hh, Hm, Hs.
  cbn [fst snd].
  destruct (readHeader_int _ _ _ _ _ _ Hh) as (Hx & Hy).
  rewrite (numPixels_exact x y Hx Hy), Hz. reflexivity.
Qed.

(** The numbers of lines 53-59 for an image that has pixels and whose
    sample buffer can be allocated. *)
Lemma sizes_exact (x y n : Z) :
  INT_MIN <= x <= INT_MAX -> INT_MIN <= y <= INT_MAX ->
  0 < x * y * n <= vector_float_max_size -> 0 < n ->
  let numPixels := to_DenseIndex (x * y) in
  let numFloats := to_DenseIndex (numPixels * n) in
  let numBytes := to_size_t (to_size_t numFloats * sizeof_float) in
  numPixels = x * y /\ numPixels <> 0 /\ numFloats = x * y * n /\
  to_size_t numFloats = x * y * n /\
  numBytes = 4 * (x * y * n) /\ to_streamsize numBytes = 4 * (x * y * n).
Proof.
  intros Hx Hy Hn Hn0. rewrite vector_float_max_size_eq in Hn. simpl.
  rewrite (numPixels_exact x y Hx Hy).
  assert (E1 : to_DenseIndex (x * y * n) = x * y * n)
    by (apply to_DenseIndex_id; lia).
  rewrite E1.
  assert (E2 : to_size_t (x * y * n) = x * y * n)
    by (apply to_size_t_id; lia).
  rewrite E2. unfold sizeof_float.
  assert (E3 : to_size_t (x * y * n * 4) = 4 * (x * y * n))
    by (rewrite to_size_t_id; lia).
  rewrite E3.
  rewrite to_streamsize_id by lia.
  repeat split; try reflexivity. intros E. rewrite E in Hn. lia.
Qed.

(** [load] after a header that passes the checks of lines 33-56 and
    whose buffer can be allocated: lines 61-116. *)
Lemma load_valid_header (sched : schedule) (s s1 : istream) (sel : string)
    (magic : string) (x y : Z) (scale : Float32.float) (n : Z) :
  readHeader uninit s = (magic, (x, y), scale, s1) ->
  numChannels_of_magic magic = Some n ->
  negb (Float32.isfinite scale) || Float32.eqb scale Float32.zero = false ->
  0 < x * y * n <= vector_float_max_size ->
  load sched s sel =
    let numBytes := 4 * (x * y * n) in
    let s2 := skipHeaderLine s1 in
    let s3 := (read numBytes s2).2 in
    if Z.of_nat (gcount s3) <? numBytes
    then (Throw (NotSufficientBytes (Z.of_nat (gcount s3)) numBytes), s3)
    else
      match decode isSystemLittleEndian (floats_of_bytes (read numBytes s2).1)
              (negb (Bool.eqb isSystemLittleEndian
                              (Float32.ltb scale Float32.zero)))
              (Float32.abs scale) (x, y) n sched
              (makeNChannels channelName n (x, y)) with
      | None => (Undefined, s3)
      | Some channels =>
          (Ok (Build_ImageData (selectChannels sel channels) [EmptyString],
               false), s3)
      end.
Proof.
  intros Hh Hm Hs Hn. unfold PfmImageLoader.load. rewrite Hh, Hm, Hs.
  cbn [fst snd].
  destruct (readHeader_int _ _ _ _ _ _ Hh) as (Hx & Hy).
  pose proof (numChannels_range _ _ Hm) as Hr.
  destruct (sizes_exact x y n Hx Hy Hn ltac:(lia))
    as (E1 & E2 & E3 & E4 & E5 & E6).
  rewrite E1 in *. apply Z.eqb_neq in E2. rewrite E2.
  rewrite E3 in *. rewrite E4 in *. rewrite E5 in *. rewrite E6.
  destruct (Z.ltb_spec vector_float_max_size (x * y * n)) as [?|_]; [lia|].
  cbv zeta.
  destruct (read (4 * (x * y * n)) (skipHeaderLine s1)) as [bytes s3].
  reflexivity.
Qed.

End Load.

End LoadFacts.

(* ===================================================================== *)
(** ** The format sniff *)
(* ===================================================================== *)

Import IStream Image PfmImageLoader DecodeSpec.
Import IStreamFacts LoaderFacts DecodeFacts DecodeCorrect LoadFacts.


(** The state [canLoadFile] leaves, for a stream in any state: offset 0
    and no error bit. *)
Lemma canLoadFile_rewinds (s : istream) :
  content (canLoadFile s).2 = content s /\
  pos (canLoadFile s).2 = 0%nat /\
  eofbit (canLoadFile s).2 = false /\
  failbit (canLoadFile s).2 = false /\
  badbit (canLoadFile s).2 = false.
Proof.
  unfold canLoadFile.
  assert (Hc : content (read 2 s).2 = content s).
  { unfold read. destruct (good s); [|reflexivity].
    destruct (_ =? _); reflexivity. }
  destruct (read 2 s) as [b s1]. simpl in *.
  unfold seekg, clear, fail; simpl. repeat split; assumption.
Qed.




(* ===================================================================== *)
(** ** The magic string *)
(* ===================================================================== *)



Section Magic.

Variable isSystemLittleEndian : bool.
Variable matchesFuzzy : string -> string -> option nat.
Variable channelName : nat -> nat -> string.
Variable uninit : Uninitialised.

Abbreviation load :=
  (load isSystemLittleEndian matchesFuzzy channelName uninit).



End Magic.


(** C10: there are streams that [canLoadFile] accepts, because it looks
    at two bytes only, and on which [load] then fails with the
    [InvalidFormat] error for the whole magic token: a true answer of
    [canLoadFile] does not promise that [load] returns an image. *)
Theorem canLoadFile_weaker_than_load (isSystemLittleEndian : bool)
    (matchesFuzzy : string -> string -> option nat)
    (channelName : nat -> nat -> string) (uninit : Uninitialised)
    (sched : schedule) (sel : string) :
  let load := load isSystemLittleEndian matchesFuzzy channelName uninit in
  let pfx := open (Examples.header "PFX" "1" "1" "1.0"
                   ++ Examples.bytes Examples.one_le) in
  let pfoo := open (Examples.header "Pfoo" "1" "1" "1.0"
                    ++ Examples.bytes Examples.one_le) in
  ((canLoadFile pfx).1 = true /\
   (load sched (canLoadFile pfx).2 sel).1 = Throw (InvalidMagic "PFX")) /\
  ((canLoadFile pfoo).1 = true /\
   (load sched (canLoadFile pfoo).2 sel).1 = Throw (InvalidMagic "Pfoo")) /\
  InvalidFormat (InvalidMagic "PFX") = true /\
  InvalidFormat (InvalidMagic "Pfoo") = true /\
  ~ (forall s : istream,
       (canLoadFile s).1 = true ->
       exists r, (load sched (canLoadFile s).2 sel).1 = Ok r).
Proof.
  intros load0 pfx pfoo.
  assert (Hx : (canLoadFile pfx).1 = true /\
    (load0 sched (canLoadFile pfx).2 sel).1 = Throw (InvalidMagic "PFX")).
  { split; [reflexivity|]. subst load0.
    erewrite load_invalid_magic; [reflexivity| |reflexivity].
    vm_compute. reflexivity. }
  assert (Ho : (canLoadFile pfoo).1 = true /\
    (load0 sched (canLoadFile pfoo).2 sel).1 = Throw (InvalidMagic "Pfoo")).
  { split; [reflexivity|]. subst load0.
    erewrite load_invalid_magic; [reflexivity| |reflexivity].
    vm_compute. reflexivity. }
  split; [exact Hx|]. split; [exact Ho|].
  split; [reflexivity|]. split; [reflexivity|].
  intros H. destruct (H pfx (proj1 Hx)) as [r Hr].
  rewrite (proj2 Hx) in Hr. discriminate Hr.
Qed.

(* ===================================================================== *)
(** ** The size of the image *)
(* ===================================================================== *)

(** C4, as stated, fails: the header "Pf / -1 -1 / 1.0" has a width and a
    height that are not positive, yet its pixel count is 1, the check of
    line 54 passes, the four bytes of payload are read and [load] returns
    an image. *)
Lemma negative_size_is_loaded :
  let s := open (Examples.header "Pf" "-1" "-1" "1.0"
                 ++ Examples.bytes Examples.one_le) in
  let r := load true Examples.occursIn Examples.rgba Examples.zeros
                sequential s "" in
  (readHeader Examples.zeros s).1.1.2 = (-1, -1) /\
  r.1 = Ok (Build_ImageData [Build_Channel "R" (-1, -1) ∅] [EmptyString],
            false) /\
  gcount r.2 = 4%nat /\
  pos r.2 = length (content s).
Proof. vm_compute. auto. Qed.

Section ZeroPixels.

Variable isSystemLittleEndian : bool.
Variable matchesFuzzy : string -> string -> option nat.
Variable channelName : nat -> nat -> string.
Variable uninit : Uninitialised.

Abbreviation load :=
  (load isSystemLittleEndian matchesFuzzy channelName uninit).

(** C4, amended: whenever the parsed width or the parsed height is zero,
    so that the image has no pixels, [load] fails with an [InvalidFormat]
    error and leaves the stream as the header parse left it: no byte of
    the payload is read. *)
Theorem zero_pixels_rejected (sched : schedule) (s s1 : istream)
    (sel : string) (magic : string) (x y : Z) (scale : Float32.float) :
  readHeader uninit s = (magic, (x, y), scale, s1) ->
  x = 0 \/ y = 0 ->
  exists e, load sched s sel = (Throw e, s1) /\ InvalidFormat e = true.
Proof.
  intros Hh Hz.
  destruct (numChannels_of_magic magic) as [n|] eqn:Hm.
  - destruct (negb (Float32.isfinite scale) || Float32.eqb scale Float32.zero)
      eqn:Hs.
    + exists (InvalidScale scale). split; [|reflexivity].
      exact (load_invalid_scale _ _ _ _ sched s s1 sel magic (x, y) scale n
               Hh Hm Hs).
    + exists ZeroPixels. split; [|reflexivity].
      apply (load_zero_pixels _ _ _ _ sched s s1 sel magic x y scale n Hh Hm Hs).
      destruct Hz as [-> | ->]; lia.
  - exists (InvalidMagic magic). split; [|reflexivity].
    exact (load_invalid_magic _ _ _ _ sched s s1 sel magic (x, y) scale Hh Hm).
Qed.

End ZeroPixels.

Lemma zero_pixels_rejected_witness :
  let s := open (Examples.header "PF" "0" "7" "1.0"
                 ++ Examples.bytes Examples.one_le) in
  exists e,
    load true Examples.occursIn Examples.rgba Examples.zeros sequential s ""
    = (Throw e, (readHeader Examples.zeros s).2) /\ InvalidFormat e = true.
Proof.
  intros s.
  apply (zero_pixels_rejected true Examples.occursIn Examples.rgba
           Examples.zeros sequential s (readHeader Examples.zeros s).2
           "" "PF" 0 7 (S754_finite false 8388608 (-23))).
  - vm_compute. reflexivity.
  - left. reflexivity.
Defined.

(* ===================================================================== *)
(** ** The end of the header and the payload *)
(* ===================================================================== *)

Section Payload.

Variable isSystemLittleEndian : bool.
Variable matchesFuzzy : string -> string -> option nat.
Variable channelName : nat -> nat -> string.
Variable uninit : Uninitialised.

Abbreviation load :=
  (load isSystemLittleEndian matchesFuzzy channelName uninit).

Lemma positive_sizes (x y n : Z) : 0 < x -> 0 < y -> 1 <= n -> 0 < x * y * n.
Proof. intros. apply Z.mul_pos_pos; [apply Z.mul_pos_pos|]; lia. Qed.


(** The part of the stream behind the first line terminator. *)
Lemma skipHeaderLine_rest (s1 : istream) (g : list ascii) (t : ascii)
    (payload : list ascii) :
  good s1 = true -> rest s1 = g ++ t :: payload ->
  Forall (fun c => is_eol c = false) g -> is_eol t = true ->
  rest (skipHeaderLine s1) = payload /\ good (skipHeaderLine s1) = true.
Proof.
  intros Hgood Hrest Hg Ht.
  rewrite (skipHeaderLine_to_eol g t payload s1 Hgood Hrest Hg Ht).
  split; [|exact Hgood].
  rewrite rest_set_gcount, rest_advance, Hrest.
  replace (S (length g)) with (length (g ++ [t]))
    by (rewrite length_app; simpl; lia).
  rewrite (cons_middle t g payload), app_assoc.
  apply drop_app_length.
Qed.

(** [load] for a header that passes the checks and is followed, on a good
    stream, by a line terminator and then [payload]. *)
Lemma load_payload (sched : schedule) (s s1 : istream)
    (sel : string) (magic : string) (x y : Z) (scale : Float32.float)
    (n : Z) (g : list ascii) (t : ascii) (payload : list ascii) :
  readHeader uninit s = (magic, (x, y), scale, s1) ->
  numChannels_of_magic magic = Some n ->
  negb (Float32.isfinite scale) || Float32.eqb scale Float32.zero = false ->
  0 < x * y * n <= vector_float_max_size ->
  good s1 = true ->
  rest s1 = g ++ t :: payload ->
  Forall (fun c => is_eol c = false) g -> is_eol t = true ->
  let numBytes := 4 * (x * y * n) in
  (load sched s sel).1 =
    if Z.of_nat (length payload) <? numBytes
    then Throw (NotSufficientBytes (Z.of_nat (length payload)) numBytes)
    else
      match decode isSystemLittleEndian
              (floats_of_bytes (take (Z.to_nat numBytes) payload))
              (negb (Bool.eqb isSystemLittleEndian
                              (Float32.ltb scale Float32.zero)))
              (Float32.abs scale) (x, y) n sched
              (makeNChannels channelName n (x, y)) with
      | None => Undefined
      | Some channels =>
          Ok (Build_ImageData (selectChannels matchesFuzzy sel channels)
                              [EmptyString], false)
      end.
Proof.
  intros Hh Hm Hs Hn Hgood Hrest Hg Ht numBytes.
  destruct (skipHeaderLine_rest s1 g t payload Hgood Hrest Hg Ht)
    as (Hr2 & Hg2).
  destruct (read_good numBytes _ Hg2) as (Hb & _ & Hc & _).
  rewrite Hr2 in Hb, Hc.
  rewrite (load_valid_header _ _ _ _ sched s s1 sel magic x y scale n
             Hh Hm Hs Hn).
  cbv zeta. fold numBytes. rewrite Hb, Hc, length_take.
  destruct (Z.ltb_spec (Z.of_nat (length payload)) numBytes) as [Hlt|Hge].
  - destruct (Z.ltb_spec
                (Z.of_nat (Z.to_nat numBytes `min` length payload)) numBytes)
      as [_|?]; [|lia].
    rewrite Nat.min_r by lia. reflexivity.
  - destruct (Z.ltb_spec
                (Z.of_nat (Z.to_nat numBytes `min` length payload)) numBytes)
      as [?|_]; [lia|].
    destruct (decode _ _ _ _ _ _ _ _); reflexivity.
Qed.


End Payload.



(* ===================================================================== *)
(** ** The order of the rows *)
(* ===================================================================== *)

Lemma fair_sequential : fair sequential.
Proof. intros a b. reflexivity. Qed.


Lemma fair_backwards : fair backwards.
Proof. intros a b. unfold backwards. apply reverse_Permutation. Qed.

(** C9: the rows of an image can be decoded in any order: every fair
    schedule of the thread pool, the sequential one among them, makes
    [load] return the same outcome and leave the same stream. The reason
    is that different rows store at different coordinates, and that no
    row writes to [data], so that the rows commute
    ([DecodeFacts.decodeRow_commutes]). *)
Theorem load_schedule_independent (isSystemLittleEndian : bool)
    (matchesFuzzy : string -> string -> option nat)
    (channelName : nat -> nat -> string) (uninit : Uninitialised)
    (sched1 sched2 : schedule) (s : istream) (sel : string) :
  fair sched1 -> fair sched2 ->
  load isSystemLittleEndian matchesFuzzy channelName uninit sched1 s sel
  = load isSystemLittleEndian matchesFuzzy channelName uninit sched2 s sel /\
  load isSystemLittleEndian matchesFuzzy channelName uninit sched1 s sel
  = load isSystemLittleEndian matchesFuzzy channelName uninit sequential s sel
  /\
  let height := (readHeader uninit s).1.1.2.2 in
  forall y y' x x' : Z,
    0 <= y < height -> 0 <= y' < height -> y ≠ y' ->
    (x, to_int (height - y - 1)) ≠ (x', to_int (height - y' - 1)).
Proof.
  intros H1 H2.
  assert (Heq : forall sched, fair sched ->
    load isSystemLittleEndian matchesFuzzy channelName uninit sched s sel
    = load isSystemLittleEndian matchesFuzzy channelName uninit sequential
           s sel).
  { intros sched Hf. unfold load.
    destruct (readHeader uninit s) as [[[magic [x y]] scale] s1] eqn:Hh.
    destruct (readHeader_int _ _ _ _ _ _ _ Hh) as (_ & Hy).
    destruct (numChannels_of_magic magic) as [n|]; [|reflexivity].
    destruct (negb _ || _); [reflexivity|].
    cbn [fst snd].
    destruct (_ =? 0); [reflexivity|].
    destruct (_ <? _); [reflexivity|].
    destruct (read _ _) as [bs s3].
    destruct (_ <? _); [reflexivity|].
    rewrite (decode_schedule _ _ _ _ x y n sched _ Hy Hf).
    reflexivity. }
  split; [rewrite (Heq sched1 H1), (Heq sched2 H2); reflexivity|].
  split; [exact (Heq sched1 H1)|].
  destruct (readHeader uninit s) as [[[magic [w h]] scale] s1] eqn:Hh.
  destruct (readHeader_int _ _ _ _ _ _ _ Hh) as (_ & Hy).
  simpl. intros y y' x x' Hy1 Hy2 Hne [= _ E].
  exact (flip_injective h y y' Hy Hy1 Hy2 Hne E).
Qed.

Lemma load_schedule_independent_witness :
  let s := open (Examples.header "Pf" "2" "2" "-1.0"
                 ++ Examples.bytes (Examples.one_le ++ Examples.two_le
                                    ++ Examples.three_le ++ Examples.four_le))
  in
  load true Examples.occursIn Examples.rgba Examples.zeros backwards s ""
  = load true Examples.occursIn Examples.rgba Examples.zeros sequential s "".
Proof.
  intros s.
  apply (load_schedule_independent true Examples.occursIn Examples.rgba
           Examples.zeros backwards sequential s "").
  - exact fair_backwards.
  - exact fair_sequential.
Defined.

(* ===================================================================== *)
(** ** The selection of channels *)
(* ===================================================================== *)

Section Selection.

Variable matchesFuzzy : string -> string -> option nat.

Abbreviation collectMatches := (collectMatches matchesFuzzy).
Abbreviation selectChannels := (selectChannels matchesFuzzy).

#[local] Instance pair_le_total : Total pair_le.
Proof. intros [a1 a2] [b1 b2]. unfold pair_le. simpl. lia. Qed.

#[local] Instance pair_le_trans : Transitive pair_le.
Proof. intros [a1 a2] [b1 b2] [c1 c2]. unfold pair_le. simpl. lia. Qed.

#[local] Instance pair_le_antisym : AntiSymm (=) pair_le.
Proof.
  intros [a1 a2] [b1 b2]. unfold pair_le. simpl. intros H1 H2.
  f_equal; lia.
Qed.

(** [std::sort] has one possible result: whatever arrangement of the pairs
    is sorted is the one [sortMatches] computes. *)
Lemma sortMatches_unique (l l' : list (nat * nat)) :
  l' ≡ₚ l -> Sorted pair_le l' -> l' = sortMatches l.
Proof.
  intros Hp Hs. apply (Sorted_unique pair_le); [exact Hs| |].
  - apply Sorted_merge_sort. apply _.
  - rewrite Hp. symmetry. apply merge_sort_Permutation.
Qed.

(** The pairs collected: one for each channel that matches, with its
    index. *)
Lemma collectMatches_elem (sel : string) (chs : list Channel) :
  forall (i rank j : nat),
  (rank, j) ∈ collectMatches sel i chs <->
  (i <= j)%nat /\
  exists ch, chs !! (j - i)%nat = Some ch /\
             matchesFuzzy (mName ch) sel = Some rank.
Proof.
  induction chs as [|ch chs IH]; intros i rank j.
  - simpl. split; [intros H; inversion H|].
    intros (_ & ch & H & _). discriminate H.
  - simpl.
    assert (Htail : (rank, j) ∈ collectMatches sel (S i) chs <->
                    (i < j)%nat /\
                    exists ch', (ch :: chs) !! (j - i)%nat = Some ch' /\
                                matchesFuzzy (mName ch') sel = Some rank).
    { rewrite IH. split.
      - intros (Hle & ch' & Hl & Hm). split; [lia|]. exists ch'.
        split; [|exact Hm].
        replace (j - i)%nat with (S (j - S i)) by lia. exact Hl.
      - intros (Hlt & ch' & Hl & Hm). split; [lia|]. exists ch'.
        split; [|exact Hm].
        replace (j - i)%nat with (S (j - S i)) in Hl by lia. exact Hl. }
    destruct (matchesFuzzy (mName ch) sel) as [m|] eqn:Hm.
    + rewrite elem_of_cons, Htail. split.
      * intros [[= -> ->]|(Hlt & H)].
        -- split; [lia|]. exists ch. rewrite Nat.sub_diag. auto.
        -- split; [lia|exact H].
      * intros (Hle & ch' & Hl & Hm').
        destruct (decide (j = i)) as [->|Hne].
        -- left. rewrite Nat.sub_diag in Hl. injection Hl as <-.
           congruence.
        -- right. split; [lia|]. exists ch'. auto.
    + rewrite Htail. split.
      * intros (Hlt & H). split; [lia|exact H].
      * intros (Hle & ch' & Hl & Hm').
        destruct (decide (j = i)) as [->|Hne].
        -- rewrite Nat.sub_diag in Hl. injection Hl as <-. congruence.
        -- split; [lia|]. exists ch'. auto.
Qed.






End Selection.



(* ===================================================================== *)
(** ** The samples of a decoded image *)
(* ===================================================================== *)

Section Samples.

Variable isSystemLittleEndian : bool.
Variable matchesFuzzy : string -> string -> option nat.
Variable channelName : nat -> nat -> string.
Variable uninit : Uninitialised.

Abbreviation load :=
  (load isSystemLittleEndian matchesFuzzy channelName uninit).

(** An image whose samples can all be indexed by an [int], complete on a
    good stream: [load] returns, and every sample of the payload is
    stored, swapped as the sign of the scale and the host ask and
    multiplied by the absolute value of the scale, at the coordinate of
    its column and of its row counted from the last. *)
Lemma load_decodes (sched : schedule) (s s1 : istream) (sel : string)
    (magic : string) (w h : Z) (scale : Float32.float) (n : Z)
    (g : list ascii) (t : ascii) (payload : list ascii) :
  readHeader uninit s = (magic, (w, h), scale, s1) ->
  numChannels_of_magic magic = Some n ->
  negb (Float32.isfinite scale) || Float32.eqb scale Float32.zero = false ->
  0 < w -> 0 < h -> w * h * n <= INT_MAX + 1 ->
  good s1 = true ->
  rest s1 = g ++ t :: payload ->
  Forall (fun c => is_eol c = false) g -> is_eol t = true ->
  4 * (w * h * n) <= Z.of_nat (length payload) ->
  fair sched ->
  let data := floats_of_bytes (take (Z.to_nat (4 * (w * h * n))) payload) in
  let shallSwapBytes :=
    negb (Bool.eqb isSystemLittleEndian (Float32.ltb scale Float32.zero)) in
  exists chs,
    (load sched s sel).1
      = Ok (Build_ImageData (selectChannels matchesFuzzy sel chs)
                            [EmptyString], false) /\
    mName <$> chs = mName <$> makeNChannels channelName n (w, h) /\
    forall y x c, 0 <= y < h -> 0 <= x < w -> 0 <= c < n ->
      exists ch raw,
        chs !! Z.to_nat c = Some ch /\
        data !! Z.to_nat ((y * w + x) * n + c) = Some raw /\
        at_ ch (x, h - 1 - y)
          = Float32.mul (Float32.abs scale)
              (Float32.value isSystemLittleEndian
                 (if shallSwapBytes then swapBytes raw else raw)).
Proof.
  intros Hh Hm Hs Hw Hhh Hfit Hgood Hrest Hg Ht Hlen Hfair data swap.
  pose proof (numChannels_range _ _ Hm) as Hn.
  pose proof (positive_sizes w h n Hw Hhh ltac:(lia)) as Hpos.
  destruct (readHeader_int _ _ _ _ _ _ _ Hh) as (_ & Hhi).
  assert (Hmax : 0 < w * h * n <= vector_float_max_size).
  { rewrite vector_float_max_size_eq. unfold INT_MAX in Hfit. lia. }
  rewrite (load_payload _ _ _ _ sched s s1 sel magic w h scale n g t payload
             Hh Hm Hs Hmax Hgood Hrest Hg Ht).
  cbv zeta.
  destruct (Z.ltb_spec (Z.of_nat (length payload)) (4 * (w * h * n)));
    [lia|].
  fold data. fold swap.
  assert (Hdata : length data = Z.to_nat (w * h * n)).
  { unfold data. apply floats_of_bytes_length. rewrite length_take. lia. }
  destruct (decode_stored isSystemLittleEndian data swap (Float32.abs scale)
              w h n Hw Hhh ltac:(lia) ltac:(lia) Hfit Hdata sched
              (makeNChannels channelName n (w, h)) Hfair
              (makeNChannels_length _ _ _))
    as (chs & Hd & Hnames & _ & Hsamples).
  exists chs. rewrite Hd. split; [reflexivity|]. split; [exact Hnames|].
  exact Hsamples.
Qed.

(** When [load] returns an image, the channels were decoded. *)
Lemma load_Ok_decode (sched : schedule) (s s' : istream) (sel : string)
    (img : ImageData) (b : bool) (magic : string) (size : Z * Z)
    (scale : Float32.float) (s1 : istream) :
  readHeader uninit s = (magic, size, scale, s1) ->
  load sched s sel = (Ok (img, b), s') ->
  exists n data swap chs,
    numChannels_of_magic magic = Some n /\
    decode isSystemLittleEndian data swap (Float32.abs scale) size n sched
           (makeNChannels channelName n size) = Some chs.
Proof.
  intros Hh. unfold PfmImageLoader.load. rewrite Hh.
  destruct (numChannels_of_magic magic) as [n|]; [|discriminate].
  destruct (negb _ || _); [discriminate|].
  destruct (_ =? 0); [discriminate|].
  destruct (_ <? _); [discriminate|].
  destruct (read _ _) as [bs s3].
  destruct (_ <? _); [discriminate|].
  destruct (decode _ _ _ _ _ _ _ _) as [chs|] eqn:Hd; [|discriminate].
  intros _. eauto 10.
Qed.

End Samples.

(** The image of two rows [1 2] and [3 4], in the order of the file: the
    first row of the file is the last row of the channel. *)
Example vertical_flip_2x2 :
  let s := open (Examples.header "Pf" "2" "2" "-1.0"
                 ++ Examples.bytes (Examples.one_le ++ Examples.two_le
                                    ++ Examples.three_le ++ Examples.four_le))
  in
  exists ch,
    (load true Examples.occursIn Examples.rgba Examples.zeros sequential s "").1
    = Ok (Build_ImageData [ch] [EmptyString], false) /\
    at_ ch (0, 0) = S754_finite false 12582912 (-22) /\
    at_ ch (1, 0) = S754_finite false 8388608 (-21) /\
    at_ ch (0, 1) = S754_finite false 8388608 (-23) /\
    at_ ch (1, 1) = S754_finite false 8388608 (-22).
Proof.
  intros s. eexists. split; [vm_compute; reflexivity|].
  vm_compute. auto.
Qed.

(** *** Images with more samples than an [int] counts *)

Lemma to_int_add_l (a b : Z) : to_int (to_int a + b) = to_int (a + b).
Proof.
  unfold to_int, wrap_signed. f_equal.
  replace ((a + 2 ^ (32 - 1)) mod 2 ^ 32 - 2 ^ (32 - 1) + b + 2 ^ (32 - 1))
    with ((a + 2 ^ (32 - 1)) mod 2 ^ 32 + b) by lia.
  rewrite Z.add_mod_idemp_l by lia. f_equal. lia.
Qed.

(** The sample whose flat index is [2^31]. *)
Lemma first_sample_out_of_int (w h n : Z) :
  0 < w -> 0 < h -> 0 < n -> INT_MAX + 1 < w * h * n ->
  exists y x c,
    0 <= y < h /\ 0 <= x < w /\ 0 <= c < n /\
    (y * w + x) * n + c = 2 ^ 31.
Proof.
  unfold INT_MAX. intros Hw Hh Hn Hbig.
  pose proof (Z.div_mod (2 ^ 31) n ltac:(lia)) as Hdn.
  pose proof (Z.mod_pos_bound (2 ^ 31) n Hn) as Hcn.
  set (p := 2 ^ 31 / n) in *. set (c := 2 ^ 31 mod n) in *.
  assert (Hp0 : 0 <= p) by (apply Z.div_pos; lia).
  pose proof (Z.div_mod p w ltac:(lia)) as Hdw.
  pose proof (Z.mod_pos_bound p w Hw) as Hxw.
  set (y := p / w) in *. set (x := p mod w) in *.
  assert (Hy0 : 0 <= y) by (apply Z.div_pos; lia).
  assert (Hpw : p < w * h) by nia.
  assert (Hyh : y < h) by nia.
  exists y, x, c. repeat split; lia.
Qed.

Section LargeImages.

Variable isSystemLittleEndian : bool.
Variable data : list Float32.rep.
Variable shallSwapBytes : bool.
Variable scale : Float32.float.

(** The read of the sample with flat index [2^31] is outside [data]
    whatever [data] holds: its [int] index is negative. *)
Lemma decodePixel_out_of_int (w h n y x c : Z) (chs : list Channel) :
  0 <= c < n -> (y * w + x) * n + c = 2 ^ 31 ->
  decodePixel isSystemLittleEndian data shallSwapBytes scale (w, h) n y x chs
  = None.
Proof.
  intros Hc Hflat. unfold decodePixel. simpl.
  apply (forM_undefined _ _ c); [apply elem_of_seqZ; lia|].
  intros s. unfold decodeSample.
  rewrite to_int_add_l, Hflat.
  reflexivity.
Qed.

(** An image with more than [2^31] samples is not decoded: some row reads
    outside [data]. *)
Lemma decode_out_of_int (w h n : Z) (sched : schedule) (chs : list Channel) :
  0 < w -> 0 < h -> 0 < n -> INT_MAX + 1 < w * h * n -> fair sched ->
  decode isSystemLittleEndian data shallSwapBytes scale (w, h) n sched chs
  = None.
Proof.
  intros Hw Hh Hn Hbig Hfair.
  destruct (first_sample_out_of_int w h n Hw Hh Hn Hbig)
    as (y & x & c & Hy & Hx & Hc & Hflat).
  unfold decode, parallelFor. simpl.
  apply (forM_undefined _ _ y).
  - rewrite (Hfair 0 h). apply elem_of_seqZ. lia.
  - intros s. unfold decodeRow. simpl.
    apply (forM_undefined _ _ x); [apply elem_of_seqZ; lia|].
    intros s'. exact (decodePixel_out_of_int w h n y x c s' Hc Hflat).
Qed.

End LargeImages.

(** C1 fails on the code for images of more than [2^31] samples: line 77
    keeps the index of a sample in an [int], so that the index of the
    sample number [2^31] is negative and the read of line 79 is outside
    [data]. For such a header [load] returns no image, however long the
    payload and whatever the schedule; when the whole payload is there,
    its outcome is the undefined read. *)
Theorem large_image_not_decoded (isSystemLittleEndian : bool)
    (matchesFuzzy : string -> string -> option nat)
    (channelName : nat -> nat -> string) (uninit : Uninitialised)
    (sched : schedule) (s s1 : istream) (sel : string) (magic : string)
    (w h : Z) (scale : Float32.float) (n : Z) :
  readHeader uninit s = (magic, (w, h), scale, s1) ->
  numChannels_of_magic magic = Some n ->
  0 < w -> 0 < h -> INT_MAX + 1 < w * h * n -> fair sched ->
  returns
    (load isSystemLittleEndian matchesFuzzy channelName uninit sched s sel).1
  = false /\
  forall (g : list ascii) (t : ascii) (payload : list ascii),
    negb (Float32.isfinite scale) || Float32.eqb scale Float32.zero = false ->
    w * h * n <= vector_float_max_size ->
    good s1 = true ->
    rest s1 = g ++ t :: payload ->
    Forall (fun c => is_eol c = false) g -> is_eol t = true ->
    4 * (w * h * n) <= Z.of_nat (length payload) ->
    (load isSystemLittleEndian matchesFuzzy channelName uninit sched s sel).1
    = Undefined.
Proof.
  intros Hh Hm Hw Hhh Hbig Hfair.
  pose proof (numChannels_range _ _ Hm) as Hn.
  split.
  - destruct (load isSystemLittleEndian matchesFuzzy channelName uninit sched
                s sel) as [[[img b]| | |] s'] eqn:Hok; try reflexivity.
    exfalso.
    destruct (load_Ok_decode _ _ _ _ sched s s' sel img b magic (w, h) scale
                s1 Hh Hok) as (n' & data & swap & chs & Hm' & Hd).
    assert (n' = n) by congruence. subst n'.
    rewrite decode_out_of_int in Hd by (assumption || lia).
    discriminate Hd.
  - intros g t payload Hs Hmax Hgood Hrest Hg Ht Hlen.
    pose proof (positive_sizes w h n Hw Hhh ltac:(lia)) as Hpos.
    rewrite (load_payload _ _ _ _ sched s s1 sel magic w h scale n g t payload
               Hh Hm Hs ltac:(lia) Hgood Hrest Hg Ht).
    cbv zeta.
    destruct (Z.ltb_spec (Z.of_nat (length payload)) (4 * (w * h * n)));
      [lia|].
    rewrite decode_out_of_int by (assumption || lia). reflexivity.
Qed.

Lemma large_image_not_decoded_witness :
  returns
    (load true Examples.occursIn Examples.rgba Examples.zeros sequential
          (open (Examples.header "PF" "32768" "32768" "1.0")) "").1
  = false.
Proof.
  set (s := open (Examples.header "PF" "32768" "32768" "1.0")).
  refine (proj1 (large_image_not_decoded true Examples.occursIn Examples.rgba
           Examples.zeros sequential s (readHeader Examples.zeros s).2 ""
           "PF" 32768 32768 (S754_finite false 8388608 (-23)) 3
           _ _ _ _ _ _)).
  - vm_compute. reflexivity.
  - reflexivity.
  - lia.
  - lia.
  - vm_compute. reflexivity.
  - exact fair_sequential.
Defined.

(* ===================================================================== *)
(** ** The scale and the byte order *)
(* ===================================================================== *)

(** C2, as stated, fails in its example: on a little-endian host a
    scale of -2.5 announces a little-endian payload, so the bytes are
    not swapped. The payload [00 00 80 3f] is the float 1 for such a
    host and is stored as 2.5; with the bytes swapped another number
    would be stored. *)
Lemma negative_scale_not_swapped_on_little_endian_host :
  let s := open (Examples.header "Pf" "1" "1" "-2.5"
                 ++ Examples.bytes Examples.one_le) in
  let raw : Float32.rep :=
    ("000"%char, "000"%char, "128"%char, "063"%char) in
  exists ch,
    (load true Examples.occursIn Examples.rgba Examples.zeros sequential s "").1
    = Ok (Build_ImageData [ch] [EmptyString], false) /\
    at_ ch (0, 0) = Examples.f32_2_5 /\
    at_ ch (0, 0) = Float32.mul Examples.f32_2_5 (Float32.value true raw) /\
    at_ ch (0, 0)
    ≠ Float32.mul Examples.f32_2_5 (Float32.value true (swapBytes raw)).
Proof.
  intros s raw. eexists. split; [vm_compute; reflexivity|].
  vm_compute. repeat split; discriminate.
Qed.

Section Scale.

Variable isSystemLittleEndian : bool.
Variable matchesFuzzy : string -> string -> option nat.
Variable channelName : nat -> nat -> string.
Variable uninit : Uninitialised.

Abbreviation load :=
  (load isSystemLittleEndian matchesFuzzy channelName uninit).

(** C2, amended: [load] fails with an [InvalidFormat] error when the
    parsed scale is not finite or is zero. Otherwise the payload is
    little-endian when the scale is negative and big-endian when it is
    positive, the bytes of every sample are swapped exactly when the host
    and the payload differ in byte order, and every sample is multiplied
    by the absolute value of the scale. (So a scale of -2.5 decodes with
    the multiplier 2.5, and with the bytes swapped on a big-endian host
    only.) *)
Theorem scale_validated_and_applied (sched : schedule) (s s1 : istream)
    (sel : string) (magic : string) (w h : Z) (scale : Float32.float) :
  readHeader uninit s = (magic, (w, h), scale, s1) ->
  (negb (Float32.isfinite scale) || Float32.eqb scale Float32.zero = true ->
   exists e, load sched s sel = (Throw e, s1) /\ InvalidFormat e = true) /\
  (negb (Float32.isfinite scale) || Float32.eqb scale Float32.zero = false ->
   let isPfmLittleEndian := Float32.ltb scale Float32.zero in
   let shallSwapBytes := negb (Bool.eqb isSystemLittleEndian isPfmLittleEndian) in
   (exists sign m e,
      scale = S754_finite sign m e /\ isPfmLittleEndian = sign /\
      Float32.abs scale = S754_finite false m e) /\
   (shallSwapBytes = true <-> isSystemLittleEndian ≠ isPfmLittleEndian) /\
   forall (n : Z) (g : list ascii) (t : ascii) (payload : list ascii),
     numChannels_of_magic magic = Some n ->
     0 < w -> 0 < h -> w * h * n <= INT_MAX + 1 ->
     good s1 = true ->
     rest s1 = g ++ t :: payload ->
     Forall (fun c => is_eol c = false) g -> is_eol t = true ->
     4 * (w * h * n) <= Z.of_nat (length payload) ->
     fair sched ->
     let data := floats_of_bytes (take (Z.to_nat (4 * (w * h * n))) payload) in
     exists chs,
       (load sched s sel).1
         = Ok (Build_ImageData (selectChannels matchesFuzzy sel chs)
                               [EmptyString], false) /\
       forall y x c, 0 <= y < h -> 0 <= x < w -> 0 <= c < n ->
         exists ch raw,
           chs !! Z.to_nat c = Some ch /\
           data !! Z.to_nat ((y * w + x) * n + c) = Some raw /\
           at_ ch (x, h - 1 - y)
             = Float32.mul (Float32.abs scale)
                 (Float32.value isSystemLittleEndian
                    (if shallSwapBytes then swapBytes raw else raw))).
Proof.
  intros Hh. split.
  - intros Hbad.
    destruct (numChannels_of_magic magic) as [n|] eqn:Hm.
    + exists (InvalidScale scale). split; [|reflexivity].
      exact (load_invalid_scale _ _ _ _ sched s s1 sel magic (w, h) scale n
               Hh Hm Hbad).
    + exists (InvalidMagic magic). split; [|reflexivity].
      exact (load_invalid_magic _ _ _ _ sched s s1 sel magic (w, h) scale
               Hh Hm).
  - intros Hs isPfmLittleEndian shallSwapBytes. split; [|split].
    + subst isPfmLittleEndian.
      destruct scale as [sg|sg| |sg m e]; try discriminate Hs.
      exists sg, m, e. split; [reflexivity|]. split; [|reflexivity].
      destruct sg; reflexivity.
    + subst shallSwapBytes.
      destruct isSystemLittleEndian, isPfmLittleEndian; simpl;
        split; congruence.
    + intros n g t payload Hm Hw Hhh Hfit Hgood Hrest Hg Ht Hlen Hfair data.
      destruct (load_decodes isSystemLittleEndian matchesFuzzy channelName
                  uninit sched s s1 sel magic w h scale n g t
                  payload Hh Hm Hs Hw Hhh Hfit Hgood Hrest Hg Ht Hlen Hfair)
        as (chs & Hok & _ & Hsamples).
      exists chs. split; [exact Hok|exact Hsamples].
Qed.

End Scale.

(** The scale -2.5 on both kinds of host. *)
Lemma scale_validated_and_applied_witness :
  let s := open (Examples.header "Pf" "1" "1" "-2.5"
                 ++ Examples.bytes Examples.one_le) in
  let raw : Float32.rep :=
    ("000"%char, "000"%char, "128"%char, "063"%char) in
  let decodes (host : bool) : Prop :=
    exists chs ch,
      (load host Examples.occursIn Examples.rgba Examples.zeros sequential
            s "").1
      = Ok (Build_ImageData
              (selectChannels Examples.occursIn "" chs) [EmptyString], false)
      /\ chs !! 0%nat = Some ch /\
      at_ ch (0, 0)
      = Float32.mul Examples.f32_2_5
          (Float32.value host (if host then raw else swapBytes raw)) in
  decodes true /\ decodes false.
Proof.
  intros s raw decodes.
  assert (H : forall host, decodes host); [|split; apply H].
  intros host. unfold decodes.
  destruct (scale_validated_and_applied host Examples.occursIn Examples.rgba
              Examples.zeros sequential s (readHeader Examples.zeros s).2 ""
              "Pf" 1 1 (S754_finite true 10485760 (-22)))
    as (_ & Hvalid).
  - vm_compute. reflexivity.
  - destruct Hvalid as (_ & _ & Hdec); [reflexivity|].
    destruct (Hdec 1 [] Examples.newline (Examples.bytes Examples.one_le))
      as (chs & Hok & Hsamples).
    + reflexivity.
    + lia.
    + lia.
    + vm_compute. discriminate.
    + reflexivity.
    + reflexivity.
    + constructor.
    + reflexivity.
    + vm_compute. discriminate.
    + exact fair_sequential.
    + destruct (Hsamples 0 0 0) as (ch & raw' & Hch & Hraw & Hat);
        [lia|lia|lia|].
      exists chs, ch. split; [exact Hok|]. split; [exact Hch|].
      change (at_ ch (0, 1 - 1 - 0)) with (at_ ch (0, 0)) in Hat.
      rewrite Hat. vm_compute in Hraw. injection Hraw as <-.
      destruct host; reflexivity.
Defined.

(* ===================================================================== *)
(** ** Further properties: the sniff and the load together *)
(* ===================================================================== *)

Section AfterSniff.

(** Formatted input neither reads nor writes the count of the last
    unformatted read. *)
Lemma sentry_gcount (k : nat) (s : istream) :
  sentry (set_gcount k s) = ((sentry s).1, set_gcount k (sentry s).2).
Proof.
  unfold sentry. change (good (set_gcount k s)) with (good s).
  change (rest (set_gcount k s)) with (rest s).
  destruct (good s); [|reflexivity].
  destruct (span isspace (rest s)) as [ws after].
  destruct after; reflexivity.
Qed.

Lemma extract_string_gcount (k : nat) (old : string) (s : istream) :
  extract_string old (set_gcount k s)
  = ((extract_string old s).1, set_gcount k (extract_string old s).2).
Proof.
  unfold extract_string. rewrite sentry_gcount.
  destruct (sentry s) as [[] s1]; [|reflexivity]. simpl.
  change (rest (set_gcount k s1)) with (rest s1).
  destruct (span _ (rest s1)) as [tok after].
  destruct tok, after; reflexivity.
Qed.

Lemma extract_int_gcount (k : nat) (old : Z) (s : istream) :
  extract_int old (set_gcount k s)
  = ((extract_int old s).1, set_gcount k (extract_int old s).2).
Proof.
  unfold extract_int. rewrite sentry_gcount.
  destruct (sentry s) as [[] s1]; [|reflexivity]. simpl.
  change (rest (set_gcount k s1)) with (rest s1).
  destruct (take_sign (rest s1)) as [sign l1].
  destruct (span isdigit l1) as [ds after].
  destruct ds as [|d ds]; [destruct after; reflexivity|].
  destruct (_ <? INT_MIN); [destruct after; reflexivity|].
  destruct (INT_MAX <? _); destruct after; reflexivity.
Qed.

Lemma extract_float_gcount (k : nat) (old : Float32.float) (s : istream) :
  extract_float old (set_gcount k s)
  = ((extract_float old s).1, set_gcount k (extract_float old s).2).
Proof.
  unfold extract_float. rewrite sentry_gcount.
  destruct (sentry s) as [[] s1]; [|reflexivity]. simpl.
  change (rest (set_gcount k s1)) with (rest s1).
  destruct (take_sign (rest s1)) as [sign l1].
  destruct (scan_float l1) as [f after].
  destruct (ff_valid f); [|destruct after; reflexivity].
  destruct (ff_value (negative sign) f); destruct after; reflexivity.
Qed.

Lemma readHeader_gcount (u : Uninitialised) (k : nat) (s : istream) :
  readHeader u (set_gcount k s)
  = ((readHeader u s).1, set_gcount k (readHeader u s).2).
Proof.
  unfold readHeader. rewrite extract_string_gcount.
  destruct (extract_string EmptyString s) as [magic sa]. simpl.
  rewrite extract_int_gcount.
  destruct (extract_int (to_int (uninit_x u)) sa) as [x sb]. simpl.
  rewrite extract_int_gcount.
  destruct (extract_int (to_int (uninit_y u)) sb) as [y sc]. simpl.
  rewrite extract_float_gcount.
  destruct (extract_float (uninit_scale u) sc) as [f sd]. reflexivity.
Qed.

(** Unformatted input overwrites it. *)
Lemma read_set_gcount (k : nat) (n : Z) (s : istream) :
  read n (set_gcount k s) = read n s.
Proof. reflexivity. Qed.

Lemma skipHeaderLine_set_gcount (k : nat) (s : istream) :
  skipHeaderLine (set_gcount k s) = skipHeaderLine s.
Proof. reflexivity. Qed.

Variable isSystemLittleEndian : bool.
Variable matchesFuzzy : string -> string -> option nat.
Variable channelName : nat -> nat -> string.
Variable uninit : Uninitialised.

Abbreviation load :=
  (load isSystemLittleEndian matchesFuzzy channelName uninit).

(** The outcome of [load] does not depend on the count of the last
    unformatted read the stream comes with. *)
Lemma load_set_gcount (sched : schedule) (k : nat) (s : istream)
    (sel : string) :
  (load sched (set_gcount k s) sel).1 = (load sched s sel).1.
Proof.
  unfold PfmImageLoader.load. rewrite readHeader_gcount.
  destruct (readHeader uninit s) as [[[magic size] scale] s1]. simpl.
  destruct (numChannels_of_magic magic) as [n|]; [|reflexivity].
  destruct (negb _ || _); [reflexivity|].
  destruct (_ =? 0); [reflexivity|].
  rewrite skipHeaderLine_set_gcount.
  destruct (_ <? _); reflexivity.
Qed.

(** The stream [canLoadFile] leaves is the opened stream of the same
    bytes, but for the count of the last unformatted read. *)
Lemma canLoadFile_leaves_open (s : istream) :
  (canLoadFile s).2
  = set_gcount (gcount (canLoadFile s).2) (open (content s)).
Proof.
  destruct (canLoadFile_rewinds s) as (Hc & Hp & He & Hf & Hb).
  apply istream_eq;
    [rewrite Hc|rewrite Hp|rewrite He|rewrite Hf|rewrite Hb|]; reflexivity.
Qed.

(** X1: whatever state a stream is handed over in, after [canLoadFile] it
    behaves as the stream of the same bytes just opened: a second
    [canLoadFile] and a [load] give what they give on the opened
    stream. *)
Theorem sniffed_stream_is_fresh (sched : schedule) (s : istream)
    (sel : string) :
  canLoadFile (canLoadFile s).2 = canLoadFile (open (content s)) /\
  (load sched (canLoadFile s).2 sel).1
  = (load sched (open (content s)) sel).1.
Proof.
  rewrite (canLoadFile_leaves_open s). split.
  - reflexivity.
  - apply load_set_gcount.
Qed.

End AfterSniff.

(* ===================================================================== *)
(** ** Further properties: headers at the edges *)
(* ===================================================================== *)




Section HeaderEdges.

Variable isSystemLittleEndian : bool.
Variable matchesFuzzy : string -> string -> option nat.
Variable channelName : nat -> nat -> string.
Variable uninit : Uninitialised.

Abbreviation load :=
  (load isSystemLittleEndian matchesFuzzy channelName uninit).


(** X7: bytes that follow the payload are not looked at: the outcome of
    [load] is that of decoding the payload, whatever comes behind it. *)
Theorem trailing_bytes_ignored (sched : schedule) (s s1 : istream)
    (sel : string) (magic : string) (x y : Z) (scale : Float32.float)
    (n : Z) (g : list ascii) (t : ascii) (payload extra : list ascii) :
  readHeader uninit s = (magic, (x, y), scale, s1) ->
  numChannels_of_magic magic = Some n ->
  negb (Float32.isfinite scale) || Float32.eqb scale Float32.zero = false ->
  0 < x * y * n <= vector_float_max_size ->
  good s1 = true ->
  rest s1 = g ++ t :: payload ++ extra ->
  Forall (fun c => is_eol c = false) g -> is_eol t = true ->
  Z.of_nat (length payload) = 4 * (x * y * n) ->
  (load sched s sel).1 =
    match decode isSystemLittleEndian (floats_of_bytes payload)
            (negb (Bool.eqb isSystemLittleEndian
                            (Float32.ltb scale Float32.zero)))
            (Float32.abs scale) (x, y) n sched
            (makeNChannels channelName n (x, y)) with
    | None => Undefined
    | Some channels =>
        Ok (Build_ImageData (selectChannels matchesFuzzy sel channels)
                            [EmptyString], false)
    end.
Proof.
  intros Hh Hm Hs Hn Hgood Hrest Hg Ht Hlen.
  rewrite (load_payload _ _ _ _ sched s s1 sel magic x y scale n g t
             (payload ++ extra) Hh Hm Hs Hn Hgood Hrest Hg Ht).
  cbv zeta. rewrite length_app.
  destruct (Z.ltb_spec (Z.of_nat (length payload + length extra))
              (4 * (x * y * n))); [lia|].
  rewrite take_app_length' by lia. reflexivity.
Qed.

(** X9: an image is returned for valid headers only: when [load] returns,
    the magic string is one of the three, the scale is finite and not
    zero, neither size is zero, the image has the one unnamed layer and
    [hasPremultipliedAlpha] is false. *)
Theorem returned_image_had_valid_header (sched : schedule) (s s1 s' : istream)
    (sel : string) (magic : string) (w h : Z) (scale : Float32.float)
    (img : ImageData) (b : bool) :
  readHeader uninit s = (magic, (w, h), scale, s1) ->
  load sched s sel = (Ok (img, b), s') ->
  (magic = "Pf"%string \/ magic = "PF"%string \/ magic = "PF4"%string) /\
  Float32.isfinite scale = true /\
  Float32.eqb scale Float32.zero = false /\
  w ≠ 0 /\ h ≠ 0 /\
  layers img = [EmptyString] /\ b = false.
Proof.
  intros Hh. unfold PfmImageLoader.load. rewrite Hh. cbn [fst snd].
  destruct (readHeader_int _ _ _ _ _ _ _ Hh) as (Hx & Hy).
  rewrite (numPixels_exact w h Hx Hy).
  destruct (numChannels_of_magic magic) as [n|] eqn:Hm; [|discriminate].
  destruct (Float32.isfinite scale) eqn:Hfin; [|discriminate].
  destruct (Float32.eqb scale Float32.zero) eqn:Hz; [discriminate|].
  simpl negb. simpl orb. cbv iota.
  destruct (Z.eqb_spec (w * h) 0) as [|Hwh]; [discriminate|].
  destruct (_ <? _); [discriminate|].
  destruct (read _ _) as [bs s3].
  destruct (_ <? _); [discriminate|].
  destruct (decode _ _ _ _ _ _ _ _) as [chs|]; [|discriminate].
  intros [= <- <- <-].
  apply numChannels_of_magic_Some in Hm.
  split; [tauto|]. repeat split; try reflexivity; lia.
Qed.

End HeaderEdges.


Lemma trailing_bytes_ignored_witness :
  let s := open (Examples.header "Pf" "1" "1" "1.0"
                 ++ Examples.bytes Examples.one_le
                 ++ Examples.text "trailer") in
  let s' := open (Examples.header "Pf" "1" "1" "1.0"
                  ++ Examples.bytes Examples.one_le) in
  (load true Examples.occursIn Examples.rgba Examples.zeros sequential s "").1
  = (load true Examples.occursIn Examples.rgba Examples.zeros sequential
          s' "").1.
Proof.
  intros s s'.
  rewrite (trailing_bytes_ignored true Examples.occursIn Examples.rgba
             Examples.zeros sequential s (readHeader Examples.zeros s).2 ""
             "Pf" 1 1 (S754_finite false 8388608 (-23)) 1
             [] Examples.newline (Examples.bytes Examples.one_le)
             (Examples.text "trailer")).
  - vm_compute. reflexivity.
  - vm_compute. reflexivity.
  - reflexivity.
  - reflexivity.
  - vm_compute. split; [reflexivity|discriminate].
  - reflexivity.
  - reflexivity.
  - constructor.
  - reflexivity.
  - reflexivity.
Defined.

Lemma returned_image_had_valid_header_witness :
  let s := open (Examples.header "PF4" "1" "1" "-0.5"
                 ++ Examples.bytes (Examples.one_le ++ Examples.two_le
                                    ++ Examples.three_le ++ Examples.four_le))
  in
  returns
    (load true Examples.occursIn Examples.rgba Examples.zeros sequential s
          "").1 = true /\
  (readHeader Examples.zeros s).1.1.1 = "PF4"%string.
Proof.
  intros s.
  pose (r := load true Examples.occursIn Examples.rgba Examples.zeros
                  sequential s "").
  pose (img := match r.1 with
               | Ok (i, _) => i
               | _ => Build_ImageData [] []
               end).
  assert (Hr : r = (Ok (img, false), r.2)) by (vm_compute; reflexivity).
  destruct (returned_image_had_valid_header true Examples.occursIn
              Examples.rgba Examples.zeros sequential s
              (readHeader Examples.zeros s).2 r.2 "" "PF4" 1 1
              (S754_finite true 8388608 (-24)) img false)
    as (_ & _ & _ & _ & _ & Hl & _).
  - vm_compute. reflexivity.
  - exact Hr.
  - split; reflexivity.
Defined.

(* ===================================================================== *)
(** ** Further properties: the decoded samples *)
(* ===================================================================== *)

Lemma forM_preserves_in {S : Type} (P : S -> Prop) (body : Z -> S -> option S)
    (l : list Z) :
  (forall i s s', i ∈ l -> body i s = Some s' -> P s -> P s') ->
  forall s s', forM l body s = Some s' -> P s -> P s'.
Proof.
  induction l as [|i l IH]; intros Hb s s' Hf Hs.
  - injection Hf as <-. exact Hs.
  - simpl in Hf. destruct (body i s) as [s1|] eqn:E; [|discriminate].
    apply (IH (fun j t t' Hj => Hb j t t' (list_elem_of_further _ _ _ Hj))
              s1 s' Hf).
    exact (Hb i s s1 (list_elem_of_here _ _) E Hs).
Qed.

Lemma forM_ext {S : Type} (body body' : Z -> S -> option S) (l : list Z) :
  (forall i s, body i s = body' i s) ->
  forall s, forM l body s = forM l body' s.
Proof.
  intros H. induction l as [|i l IH]; intros s; [reflexivity|].
  simpl. rewrite H. destruct (body' i s); [apply IH|reflexivity].
Qed.

Lemma swapBytes_involutive (r : Float32.rep) : swapBytes (swapBytes r) = r.
Proof. destruct r as [[[b0 b1] b2] b3]. reflexivity. Qed.

(** Decoding a buffer of byte-reversed samples with the opposite swap
    flag is decoding the buffer itself. *)
Lemma decode_swapped (host : bool) (data : list Float32.rep) (swap : bool)
    (scale : Float32.float) (size : Z * Z) (n : Z) (sched : schedule)
    (chs : list Channel) :
  decode host (swapBytes <$> data) (negb swap) scale size n sched chs
  = decode host data swap scale size n sched chs.
Proof.
  unfold decode, parallelFor. apply forM_ext. intros y s.
  unfold decodeRow. apply forM_ext. intros x s1.
  unfold decodePixel. apply forM_ext. intros c s2.
  unfold decodeSample, data_at.
  destruct (_ <? 0); [reflexivity|].
  rewrite list_lookup_fmap.
  destruct (data !! _) as [val|]; [|reflexivity]. simpl.
  destruct swap; simpl; rewrite ?swapBytes_involutive; reflexivity.
Qed.

(** The stores of a decode go to coordinates of the grid. *)
Lemma decode_in_grid (host : bool) (data : list Float32.rep) (swap : bool)
    (scale : Float32.float) (w h n : Z) (sched : schedule)
    (chs0 chs : list Channel) (G : Z * Z -> Prop) :
  INT_MIN <= h <= INT_MAX -> fair sched ->
  (forall x y, 0 <= x < w -> 0 <= y < h -> G (x, y)) ->
  decode host data swap scale (w, h) n sched chs0 = Some chs ->
  Forall (fun ch => forall p, is_Some (mData ch !! p) -> G p) chs0 ->
  Forall (fun ch => forall p, is_Some (mData ch !! p) -> G p) chs.
Proof.
  intros Hh Hfair HG. unfold decode, parallelFor. simpl.
  apply forM_preserves_in. intros y s s' Hy.
  rewrite (Hfair 0 h) in Hy. apply elem_of_seqZ in Hy.
  unfold decodeRow. simpl. apply forM_preserves_in. intros x s1 s1' Hx.
  apply elem_of_seqZ in Hx.
  unfold decodePixel. apply forM_preserves_in. intros c s2 s2' _.
  unfold decodeSample.
  destruct (data_at data _) as [val|]; [|discriminate].
  unfold writeSample.
  destruct (s2 !! Z.to_nat c) as [ch|] eqn:Hch; [|discriminate].
  intros [= <-] Hall. apply Forall_insert; [exact Hall|].
  intros p. unfold set_at. simpl.
  rewrite to_int_id by (unfold INT_MIN, INT_MAX in *; lia).
  destruct (decide ((x, h - y - 1) = p)) as [<-|Hne].
  - intros _. apply HG; lia.
  - rewrite lookup_insert_ne by exact Hne. intros Hsome.
    rewrite Forall_forall in Hall.
    apply (Hall ch); [|exact Hsome].
    eapply list_elem_of_lookup_2. exact Hch.
Qed.

Section DecodedImage.

Variable isSystemLittleEndian : bool.
Variable matchesFuzzy : string -> string -> option nat.
Variable channelName : nat -> nat -> string.
Variable uninit : Uninitialised.

Abbreviation load :=
  (load isSystemLittleEndian matchesFuzzy channelName uninit).
Abbreviation selectChannels := (selectChannels matchesFuzzy).
Abbreviation collectMatches := (collectMatches matchesFuzzy).

(** All that a returned image tells about the run of [load]. *)
Lemma load_Ok_full (sched : schedule) (s s1 s' : istream) (sel : string)
    (img : ImageData) (b : bool) (magic : string) (size : Z * Z)
    (scale : Float32.float) :
  readHeader uninit s = (magic, size, scale, s1) ->
  load sched s sel = (Ok (img, b), s') ->
  exists n data swap chs,
    numChannels_of_magic magic = Some n /\
    decode isSystemLittleEndian data swap (Float32.abs scale) size n sched
           (makeNChannels channelName n size) = Some chs /\
    img = Build_ImageData (selectChannels sel chs) [EmptyString] /\
    b = false.
Proof.
  intros Hh. unfold PfmImageLoader.load. rewrite Hh.
  destruct (numChannels_of_magic magic) as [n|]; [|discriminate].
  destruct (negb _ || _); [discriminate|].
  destruct (_ =? 0); [discriminate|].
  destruct (_ <? _); [discriminate|].
  destruct (read _ _) as [bs s3].
  destruct (_ <? _); [discriminate|].
  destruct (decode _ _ _ _ _ _ _ _) as [chs|] eqn:Hd; [|discriminate].
  intros [= <- <- <-]. eauto 10.
Qed.

(** The channels chosen are channels of the list, and matched. *)
Lemma selectChannels_elem (sel : string) (chs : list Channel) (ch : Channel) :
  ch ∈ selectChannels sel chs ->
  exists i rank,
    chs !! i = Some ch /\ matchesFuzzy (mName ch) sel = Some rank.
Proof.
  unfold PfmImageLoader.selectChannels. intros Hin.
  apply list_elem_of_omap in Hin as ([rank i] & Hm & Hl). simpl in Hl.
  assert (Hc : (rank, i) ∈ collectMatches sel 0 chs).
  { destruct (negb (String.eqb sel "")); [|exact Hm].
    unfold sortMatches in Hm. rewrite merge_sort_Permutation in Hm.
    exact Hm. }
  apply collectMatches_elem in Hc as (_ & ch' & Hl' & Hr).
  rewrite Nat.sub_0_r, Hl in Hl'. injection Hl' as <-. eauto.
Qed.

(** X11: a sample is never stored outside the grid: in every channel of
    a returned image, every coordinate that holds a sample has its column
    in [0, width) and its row in [0, height). *)
Theorem samples_stay_in_grid (sched : schedule) (s s1 s' : istream)
    (sel : string) (magic : string) (w h : Z) (scale : Float32.float)
    (img : ImageData) (b : bool) :
  fair sched ->
  readHeader uninit s = (magic, (w, h), scale, s1) ->
  load sched s sel = (Ok (img, b), s') ->
  forall ch, ch ∈ channels img ->
  forall x y, is_Some (mData ch !! (x, y)) -> 0 <= x < w /\ 0 <= y < h.
Proof.
  intros Hfair Hh Hok ch Hin x y Hsome.
  destruct (load_Ok_full sched s s1 s' sel img b magic (w, h) scale Hh Hok)
    as (n & data & swap & chs & Hn & Hd & -> & _).
  destruct (readHeader_int _ _ _ _ _ _ _ Hh) as (_ & Hhi).
  simpl in Hin.
  destruct (selectChannels_elem sel chs ch Hin) as (i & rank & Hl & _).
  assert (Hblank : Forall (fun ch : Channel => forall p : Z * Z,
                      is_Some (mData ch !! p) -> 0 <= p.1 < w /\ 0 <= p.2 < h)
                     (makeNChannels channelName n (w, h))).
  { unfold makeNChannels. apply Forall_forall. intros c Hc.
    apply list_elem_of_In in Hc. apply in_map_iff in Hc as (j & <- & _).
    intros p [v Hv]. simpl in Hv. rewrite lookup_empty in Hv.
    discriminate Hv. }
  pose proof (decode_in_grid _ _ _ _ w h n sched _ chs
                (fun p => 0 <= p.1 < w /\ 0 <= p.2 < h) Hhi Hfair
                ltac:(intros; simpl; lia) Hd Hblank) as Hgrid.
  rewrite Forall_forall in Hgrid.
  exact (Hgrid ch (list_elem_of_lookup_2 _ _ _ Hl) (x, y) Hsome).
Qed.

End DecodedImage.

Lemma opposite_scale (scale : Float32.float) :
  negb (Float32.isfinite scale) || Float32.eqb scale Float32.zero = false ->
  negb (Float32.isfinite (SFopp scale))
  || Float32.eqb (SFopp scale) Float32.zero = false /\
  Float32.ltb (SFopp scale) Float32.zero
  = negb (Float32.ltb scale Float32.zero) /\
  Float32.abs (SFopp scale) = Float32.abs scale.
Proof.
  destruct scale as [sg|sg| |sg m e]; try discriminate.
  intros _. destruct sg; repeat split; reflexivity.
Qed.

Section WholeImages.

Variable isSystemLittleEndian : bool.
Variable matchesFuzzy : string -> string -> option nat.
Variable channelName : nat -> nat -> string.
Variable uninit : Uninitialised.

Abbreviation load :=
  (load isSystemLittleEndian matchesFuzzy channelName uninit).

(** X13: the same image stored in the other byte order decodes to the
    same result: a stream whose scale has the opposite sign and whose
    samples have their bytes reversed gives the outcome of the stream
    itself. *)
Theorem opposite_byte_order_same_image (sched : schedule)
    (s s1 s' s1' : istream) (sel : string) (magic : string) (w h : Z)
    (scale : Float32.float) (n : Z) (g g' : list ascii) (t t' : ascii)
    (payload payload' : list ascii) :
  readHeader uninit s = (magic, (w, h), scale, s1) ->
  readHeader uninit s' = (magic, (w, h), SFopp scale, s1') ->
  numChannels_of_magic magic = Some n ->
  negb (Float32.isfinite scale) || Float32.eqb scale Float32.zero = false ->
  0 < w * h * n <= vector_float_max_size ->
  good s1 = true -> rest s1 = g ++ t :: payload ->
  Forall (fun c => is_eol c = false) g -> is_eol t = true ->
  good s1' = true -> rest s1' = g' ++ t' :: payload' ->
  Forall (fun c => is_eol c = false) g' -> is_eol t' = true ->
  length payload' = length payload ->
  floats_of_bytes (take (Z.to_nat (4 * (w * h * n))) payload')
  = swapBytes <$> floats_of_bytes (take (Z.to_nat (4 * (w * h * n))) payload)
  ->
  (load sched s' sel).1 = (load sched s sel).1.
Proof.
  intros Hh Hh' Hm Hs Hn Hgood Hrest Hg Ht Hgood' Hrest' Hg' Ht' Hlen Hrev.
  destruct (opposite_scale scale Hs) as (Hs' & Hlt & Habs).
  rewrite (load_payload _ _ _ _ sched s s1 sel magic w h scale n g t payload
             Hh Hm Hs Hn Hgood Hrest Hg Ht).
  rewrite (load_payload _ _ _ _ sched s' s1' sel magic w h (SFopp scale) n
             g' t' payload' Hh' Hm Hs' Hn Hgood' Hrest' Hg' Ht').
  cbv zeta. rewrite Hlen, Hrev, Hlt, Habs.
  destruct (_ <? _); [reflexivity|].
  replace (negb (Bool.eqb isSystemLittleEndian
                          (negb (Float32.ltb scale Float32.zero))))
    with (negb (negb (Bool.eqb isSystemLittleEndian
                               (Float32.ltb scale Float32.zero))))
    by (destruct isSystemLittleEndian, (Float32.ltb scale Float32.zero);
        reflexivity).
  rewrite decode_swapped. reflexivity.
Qed.

End WholeImages.

Lemma samples_stay_in_grid_witness :
  let s := open (Examples.header "Pf" "2" "2" "-1.0"
                 ++ Examples.bytes (Examples.one_le ++ Examples.two_le
                                    ++ Examples.three_le ++ Examples.four_le))
  in
  let r := load true Examples.occursIn Examples.rgba Examples.zeros
                sequential s "" in
  match r.1 with
  | Ok (img, _) =>
      match channels img with
      | [ch] => mData ch !! (2, 0) = None
      | _ => False
      end
  | _ => False
  end.
Proof.
  intros s r.
  pose (img := match r.1 with
               | Ok (i, _) => i
               | _ => Build_ImageData [] []
               end).
  assert (Hr : r = (Ok (img, false), r.2)) by (vm_compute; reflexivity).
  pose proof (samples_stay_in_grid true Examples.occursIn Examples.rgba
                Examples.zeros sequential s (readHeader Examples.zeros s).2
                r.2 "" "Pf" 2 2 (S754_finite true 8388608 (-23)) img false
                fair_sequential ltac:(vm_compute; reflexivity) Hr) as Hgrid.
  rewrite Hr. simpl.
  destruct (channels img) as [|ch [|ch' l]] eqn:Hc;
    try (vm_compute in Hc; discriminate Hc).
  destruct (mData ch !! (2, 0)) as [v|] eqn:Hv; [|reflexivity].
  destruct (Hgrid ch ltac:(left) 2 0 ltac:(rewrite Hv; eauto)) as (Hx & _).
  lia.
Defined.

Lemma opposite_byte_order_same_image_witness :
  let little := open (Examples.header "Pf" "1" "1" "-1.0"
                      ++ Examples.bytes [0; 0; 128; 63]) in
  let big := open (Examples.header "Pf" "1" "1" "1.0"
                   ++ Examples.bytes [63; 128; 0; 0]) in
  (load true Examples.occursIn Examples.rgba Examples.zeros sequential big "").1
  = (load true Examples.occursIn Examples.rgba Examples.zeros sequential
          little "").1.
Proof.
  intros little big.
  apply (opposite_byte_order_same_image true Examples.occursIn Examples.rgba
           Examples.zeros sequential little (readHeader Examples.zeros little).2
           big (readHeader Examples.zeros big).2 "" "Pf" 1 1
           (S754_finite true 8388608 (-23)) 1
           [] [] Examples.newline Examples.newline
           (Examples.bytes [0; 0; 128; 63]) (Examples.bytes [63; 128; 0; 0])).
  - vm_compute. reflexivity.
  - vm_compute. reflexivity.
  - reflexivity.
  - reflexivity.
  - vm_compute. split; [reflexivity|discriminate].
  - reflexivity.
  - reflexivity.
  - constructor.
  - reflexivity.
  - reflexivity.
  - reflexivity.
  - constructor.
  - reflexivity.
  - reflexivity.
  - reflexivity.
Defined.
